(** * A one-dimensional diffusion model: the notebook and its numerical kernel

    Shallow embedding of [notebooks/Diffusion-model.ipynb].  The notebook
    builds a regular grid with [np.arange], sets a step function as initial
    condition, derives a time step from the stability criterion and then runs

      for t in range(0,nt):
          C[1:-1] += D * dt/dx ** 2 * (C[:-2] - 2*C[1:-1] + C[2:])

    The NumPy operations used by these cells (slices with negative bounds,
    element-wise arithmetic producing fresh arrays, boolean-mask assignment,
    the in-place [+=] through a view) are written out below over lists.

    The arithmetic is a parameter of the embedding (class [Arith]).  Two
    instances are provided: [binary64], the IEEE-754 double precision numbers
    that Python floats and [float64] arrays are, and [exact], the rationals,
    in which the discretised diffusion equation of the notebook's text is
    read without rounding. *)

From Stdlib Require Import List ZArith QArith Qround Qminmax Lqa Lia Bool Arith.
From Stdlib Require Import Floats.
Import ListNotations.

Local Open Scope nat_scope.

(* ================================================================== *)
(** ** Arithmetic interface *)

(** What the notebook asks of its numbers: conversion of Python integers,
    the four operations, the square [a ** 2], the two comparisons of the
    initial condition, the zero test behind Python's [ZeroDivisionError], and
    the ceiling that [np.arange] uses to size the grid.

    The square is an operation of its own and not a product: Python's float
    [**] hands the computation to the C library's [pow] and raises
    [OverflowError] when the result overflows ([None] below).  The class
    leaves open how the square is rounded. *)
Class Arith (T : Type) : Type := {
  of_int : Z -> T;
  add : T -> T -> T;
  sub : T -> T -> T;
  mul : T -> T -> T;
  div : T -> T -> T;
  pow2 : T -> option T;
  leb : T -> T -> bool;
  gtb : T -> T -> bool;
  is_zero : T -> bool;
  ceil : T -> option Z
}.

(** *** IEEE-754 binary64 *)

(** A Python integer meeting a float is converted to the double of the same
    value.  The conversion below is the one of integers of magnitude below
    2^53, where it is exact: the integers of the notebook and the indices of
    its grid. *)
Definition float_of_int (z : Z) : float :=
  match z with
  | Z0 => PrimFloat.of_uint63 (Uint63.of_Z 0)
  | Zpos _ => PrimFloat.of_uint63 (Uint63.of_Z z)
  | Zneg p => PrimFloat.opp (PrimFloat.of_uint63 (Uint63.of_Z (Zpos p)))
  end.

(** Ceiling of a finite double as an integer; [None] on infinities and NaN,
    where [np.arange] raises. *)
Definition float_ceil (f : float) : option Z :=
  match Prim2SF f with
  | S754_zero _ => Some 0%Z
  | S754_finite s m e =>
      let v := if s then Zneg m else Zpos m in
      Some (match e with
            | Z0 => v
            | Zpos p => v * Z.pow_pos 2 p
            | Zneg p => - ((- v) / Z.pow_pos 2 p)
            end)%Z
  | S754_infinity _ => None
  | S754_nan => None
  end.

(** [a ** 2] on a Python float, as [float_pow] computes it for the exponent
    2: a NaN is returned as it is, an infinity gives [+inf], a zero gives
    [0.0], a base of magnitude 1 gives [1.0], and any other base is replaced
    by its magnitude and handed to the C library, whose result is returned
    unless it is infinite, in which case [OverflowError] is raised; a result
    that underflows to zero is returned.  [libm_pow2 v] stands for the C
    library's [pow(v, 2.0)] on the finite positive [v] that reach it. *)
Definition float_pow2 (libm_pow2 : float -> float) (a : float)
  : option float :=
  if PrimFloat.is_nan a then Some a
  else if PrimFloat.is_infinity a then Some (PrimFloat.abs a)
  else if PrimFloat.eqb a (float_of_int 0) then Some (float_of_int 0)
  else
    let v := PrimFloat.abs a in
    if PrimFloat.eqb v (float_of_int 1) then Some (float_of_int 1)
    else
      let x := libm_pow2 v in
      if PrimFloat.is_infinity x then None else Some x.

(** The doubles of Python on a platform whose C library computes squares as
    [libm_pow2]. *)
Definition binary64_libm (libm_pow2 : float -> float) : Arith float := {|
  of_int := float_of_int;
  add := PrimFloat.add;
  sub := PrimFloat.sub;
  mul := PrimFloat.mul;
  div := PrimFloat.div;
  pow2 := float_pow2 libm_pow2;
  leb := PrimFloat.leb;
  gtb := fun a b => PrimFloat.ltb b a;
  is_zero := fun a => PrimFloat.eqb a (float_of_int 0);
  ceil := float_ceil
|}.

(** A C library that rounds the square to the nearest double.  Every C
    library returns the square itself when it is a double, as for the
    spacing 0.5 of the notebook; they differ in the last place on other
    arguments. *)
Definition rounded_square (v : float) : float := PrimFloat.mul v v.

#[export] Instance binary64 : Arith float := binary64_libm rounded_square.

(** *** Exact rationals *)

#[export] Instance exact : Arith Q := {
  of_int := inject_Z;
  add := Qplus;
  sub := Qminus;
  mul := Qmult;
  div := Qdiv;
  pow2 := fun a => Some (Qmult a a);
  leb := Qle_bool;
  gtb := fun a b => negb (Qle_bool a b);
  is_zero := fun a => Qeq_bool a 0;
  ceil := fun a => Some (Qceiling a)
}.

(* ================================================================== *)
(** ** Error monad of the notebook

    A cell either binds its variables or raises; [None] stands for the
    raised exception. *)

Definition bind {A B : Type} (m : option A) (k : A -> option B) : option B :=
  match m with
  | Some a => k a
  | None => None
  end.

Notation "'do' x <- m ; k" := (bind m (fun x => k))
  (at level 10, x name, m at level 100, k at level 200).

(* ================================================================== *)
(** ** NumPy and Python operations over lists *)

Section Numpy.
Context {T : Type} {AT : Arith T}.

(** [0.0], the content of [np.zeros_like] and the default of [nth]. *)
Definition zero : T := of_int 0.

(** Python's [a / b] on numbers: raises when the divisor is zero. *)
Definition py_div (a b : T) : option T :=
  if is_zero b then None else Some (div a b).

(** [a ** 2]: raises when the square overflows. *)
Definition py_pow2 (a : T) : option T := pow2 a.

(** A decimal literal [m]e-[k] of the source text, such as [0.5] = 5e-1:
    the number nearest to the quotient of the two integers. *)
Definition literal (m : Z) (k : nat) : T :=
  div (of_int m) (of_int (10 ^ Z.of_nat k)).

(** Normalisation of one slice bound against a length [n], as
    [slice.indices] does for step 1: a negative bound counts from the end,
    and the result is clamped to [0, n]. *)
Definition clamp_index (n : Z) (i : Z) : Z :=
  let j := if (i <? 0)%Z then (i + n)%Z else i in
  Z.max 0 (Z.min n j).

Definition slice_bounds (start stop : option Z) (n : nat) : nat * nat :=
  let nz := Z.of_nat n in
  let lo := match start with Some i => clamp_index nz i | None => 0%Z end in
  let hi := match stop with Some i => clamp_index nz i | None => nz end in
  (Z.to_nat lo, Z.to_nat hi).

(** [l[start:stop]]. *)
Definition slice (start stop : option Z) (l : list T) : list T :=
  let '(lo, hi) := slice_bounds start stop (length l) in
  firstn (hi - lo) (skipn lo l).

(** Element-wise binary operation on two arrays of the same shape; the
    result is a fresh array. *)
Fixpoint map2 {A B C : Type} (f : A -> B -> C) (l1 : list A) (l2 : list B)
  : list C :=
  match l1, l2 with
  | a :: l1', b :: l2' => f a b :: map2 f l1' l2'
  | _, _ => []
  end.

(** [k * a] with a scalar on the left; a fresh array. *)
Definition scale (k : T) (a : list T) : list T := map (mul k) a.

(** One write [buf[j] = v] into the array's buffer. *)
Fixpoint store (j : nat) (v : T) (buf : list T) : list T :=
  match buf with
  | [] => []
  | c :: buf' =>
      match j with
      | O => v :: buf'
      | S j' => c :: store j' v buf'
      end
  end.

(** The element loop of an in-place addition through a view whose first
    element is [buf[j]]: each element is read from the buffer, added to the
    operand's element, and written back. *)
Fixpoint iadd_from (j : nat) (E : list T) (buf : list T) : list T :=
  match E with
  | [] => buf
  | e :: E' => iadd_from (S j) E' (store j (add (nth j buf zero) e) buf)
  end.

(** [buf[start:stop] += E]: the slice is a view on [buf], so the additions
    write into [buf] itself. *)
Definition iadd_slice (start stop : option Z) (E : list T) (buf : list T)
  : list T :=
  iadd_from (fst (slice_bounds start stop (length buf))) E buf.

(** [np.zeros_like(x)]. *)
Definition zeros_like (x : list T) : list T := map (fun _ => zero) x.

(** [C[mask] = v]. *)
Definition mask_assign (mask : list bool) (v : T) (C : list T) : list T :=
  map2 (fun (m : bool) c => if m then v else c) mask C.

(** The filling loop of [np.arange]: the first two elements are stored, and
    element [i >= 2] is [first + i * (next - first)]. *)
Definition arange_fill (first next : T) (n : nat) : list T :=
  map (fun i =>
         match i with
         | O => first
         | S O => next
         | _ => add first (mul (of_int (Z.of_nat i)) (sub next first))
         end)
      (seq 0 n).

(** [np.arange(start, stop, step)]: [ceil((stop - start) / step)] elements,
    none when that number is not positive. *)
Definition arange (start stop step : T) : option (list T) :=
  do q <- py_div (sub stop start) step;
  do len <- ceil q;
  Some (if (len <=? 0)%Z then []
        else arange_fill start (add start step) (Z.to_nat len)).

(** The second differences [a - 2*b + c] along a field whose first element
    is [a] and whose remaining elements are [l]. *)
Fixpoint second_diff (a : T) (l : list T) : list T :=
  match l with
  | [] => []
  | b :: l' =>
      match l' with
      | [] => []
      | c :: _ => add (sub a (mul (of_int 2) b)) c :: second_diff b l'
      end
  end.

(* ---------------------------------------------------------------- *)
(** ** The time-stepping loop *)

(** The right operand of the [+=], evaluated into fresh arrays before any
    element of [C] is written:
    [r * (C[:-2] - 2*C[1:-1] + C[2:])]. *)
Definition stencil_rhs (r : T) (C : list T) : list T :=
  scale r
    (map2 add
       (map2 sub (slice None (Some (-2)%Z) C)
                 (scale (of_int 2) (slice (Some 1%Z) (Some (-1)%Z) C)))
       (slice (Some 2%Z) None C)).

(** The loop body for a diffusion number [r] already evaluated. *)
Definition step_with (r : T) (C : list T) : list T :=
  iadd_slice (Some 1%Z) (Some (-1)%Z) (stencil_rhs r C) C.

(** [D * dt/dx ** 2]: the product, the square, then the quotient. *)
Definition diffusion_number (D dt dx : T) : option T :=
  let p := mul D dt in
  do sq <- py_pow2 dx;
  py_div p sq.

(** One pass through the loop body. *)
Definition step (D dt dx : T) (C : list T) : option (list T) :=
  do r <- diffusion_number D dt dx;
  Some (step_with r C).

(** [for t in range(0,nt): ...]. *)
Fixpoint loop (nt : nat) (D dt dx : T) (C : list T) : option (list T) :=
  match nt with
  | O => Some C
  | S k => do C' <- step D dt dx C; loop k D dt dx C'
  end.

(** [k] passes for a fixed diffusion number. *)
Fixpoint steps (k : nat) (r : T) (C : list T) : list T :=
  match k with
  | O => C
  | S k' => steps k' r (step_with r C)
  end.

(* ---------------------------------------------------------------- *)
(** ** The cells of the notebook *)

Definition D : T := of_int 100.
Definition Lx : T := of_int 300.
Definition dx : T := literal 5 1.
Definition C_left : T := of_int 500.
Definition C_right : T := of_int 0.
Definition nt : nat := 5000.

(** [x = np.arange(start=0, stop=Lx, step=dx)]. *)
Definition grid : option (list T) := arange (of_int 0) Lx dx.

(** The initial condition cell, for a grid [x]. *)
Definition initial (x : list T) : option (list T) :=
  do mid <- py_div Lx (of_int 2);
  let C := zeros_like x in
  let C := mask_assign (map (fun xi => leb xi mid) x) C_left C in
  let C := mask_assign (map (fun xi => gtb xi mid) x) C_right C in
  Some C.

(** [dt = 0.5 * dx **2/ D], for any diffusivity and spacing. *)
Definition stable_dt (D dx : T) : option T :=
  do sq <- py_pow2 dx;
  py_div (mul (literal 5 1) sq) D.

Definition dt : option T := stable_dt D dx.

(** The field after [k] passes of the loop of the notebook. *)
Definition field_after (k : nat) : option (list T) :=
  do x <- grid;
  do C0 <- initial x;
  do dt <- dt;
  loop k D dt dx C0.

(** The field the final plot shows. *)
Definition final_field : option (list T) := field_after nt.

(* ---------------------------------------------------------------- *)
(** ** The inspection cells *)

(** [l[i]] for an integer [i]: a negative index counts from the end, and an
    index outside the array raises [IndexError]. *)
Definition py_index (i : Z) (l : list T) : option T :=
  let n := Z.of_nat (length l) in
  let j := if (i <? 0)%Z then (i + n)%Z else i in
  if ((j <? 0) || (n <=? j))%Z then None else nth_error l (Z.to_nat j).

(** The cell [nx], after [nx = len(x)]. *)
Definition shown_nx : option nat :=
  do x <- grid; Some (length x).

(** The cell [x[0]]. *)
Definition shown_first : option T :=
  do x <- grid; py_index 0 x.

(** The cell [x[0:5]]. *)
Definition shown_head : option (list T) :=
  do x <- grid; Some (slice (Some 0%Z) (Some 5%Z) x).

(* ---------------------------------------------------------------- *)
(** ** Reference steppers *)

(** The value the stepping contract gives to the interior point [i]:
    [C[i] + r * (C[i-1] - 2*C[i] + C[i+1])], read from the old field. *)
Definition stencil_at (r : T) (C : list T) (i : nat) : T :=
  add (nth i C zero)
      (mul r (add (sub (nth (i - 1) C zero) (mul (of_int 2) (nth i C zero)))
                  (nth (i + 1) C zero))).

Definition interior (n i : nat) : bool := (1 <=? i) && (i + 1 <? n).

(** The double-buffered reference step of the specification: a fresh output
    buffer is filled from the old field only, interior points by the stencil,
    the two boundary points by copy. *)
Definition step_ref (r : T) (C : list T) : list T :=
  map (fun i => if interior (length C) i then stencil_at r C i
                else nth i C zero)
      (seq 0 (length C)).

(** A single-buffer loop that writes each interior element as soon as it is
    computed, so that the next element reads an updated left neighbour. *)
Fixpoint sweep (r : T) (i m : nat) (buf : list T) : list T :=
  match m with
  | O => buf
  | S m' => sweep r (S i) m' (store i (stencil_at r buf i) buf)
  end.

Definition step_sweep (r : T) (C : list T) : list T :=
  sweep r 1 (length C - 2) C.

(** The interior of the new field as a window sliding over the old one:
    [a] is the old left neighbour of the head of [l]. *)
Fixpoint window (r : T) (a : T) (l : list T) : list T :=
  match l with
  | [] => []
  | b :: l' =>
      match l' with
      | [] => [b]
      | c :: _ =>
          add b (mul r (add (sub a (mul (of_int 2) b)) c)) :: window r b l'
      end
  end.

Definition step_window (r : T) (C : list T) : list T :=
  match C with
  | [] => []
  | a :: l => a :: window r a l
  end.

(** Checking a property of the fields along a run: [p k] is asked of the
    field after pass [k], for [k] from [i + 1] to [i + n]; [f] is the pass. *)
Fixpoint check_along (f : list T -> list T) (p : nat -> list T -> bool)
  (i n : nat) (C : list T) : bool :=
  match n with
  | O => true
  | S n' =>
      let C' := f C in
      p (S i) C' && check_along f p (S i) n' C'
  end.

Definition check_run (p : nat -> list T -> bool) (i n : nat) (r : T)
  (C : list T) : bool :=
  check_along (step_with r) p i n C.


(** The profile never rises from one grid point to the next. *)
Fixpoint nonincreasingb (l : list T) : bool :=
  match l with
  | [] => true
  | a :: t =>
      match t with
      | [] => true
      | b :: _ => leb b a && nonincreasingb t
      end
  end.

(** No rise between neighbours larger than [tol]. *)
Fixpoint rises_within (tol : T) (l : list T) : bool :=
  match l with
  | [] => true
  | a :: t =>
      match t with
      | [] => true
      | b :: _ => leb (sub b a) tol && rises_within tol t
      end
  end.

(** Every value lies in the closed interval [lo, hi]. *)
Definition withinb (lo hi : T) (l : list T) : bool :=
  forallb (fun v => leb lo v && leb v hi) l.


End Numpy.

(* ================================================================== *)
(** ** The run in binary64 *)

Module B64.

(** The variables of the notebook as its cells bind them, evaluated. *)
Definition grid_value : list float :=
  Eval vm_compute in match grid with Some v => v | None => [] end.

Definition initial_value : list float :=
  Eval vm_compute in match initial grid_value with Some v => v | None => [] end.

Definition dt_value : float :=
  Eval vm_compute in match dt with Some v => v | None => zero end.

Definition r_value : float :=
  Eval vm_compute in
    match diffusion_number D dt_value dx with Some v => v | None => zero end.

(** [Lx/2], the position of the step. *)
Definition midpoint : float := Eval vm_compute in div Lx (of_int 2).

(** The largest rise between neighbours met during the run: 2^-51. *)
Definition rounding_slack : float := Eval vm_compute in
  div (of_int 1) (of_int (2 ^ 51)).

(** A field on which one pass rounds above the largest old value. *)
Definition overshoot_field : list float :=
  [literal 9 1; literal 3 1; literal 9 1].

(** What is asked of the field after pass [k]: no rise between neighbours
    exceeds the rounding slack, and outside the window of passes 58 to 685
    the profile does not rise at all; every value stays between the two
    boundary values. *)
Definition profile_check (k : nat) (C : list float) : bool :=
  rises_within rounding_slack C &&
  (if (k <=? 57) || (686 <=? k) then nonincreasingb C else true).

Definition range_check (k : nat) (C : list float) : bool :=
  withinb C_right C_left C.

Definition run_check (k : nat) (C : list float) : bool :=
  profile_check k C && range_check k C.



End B64.

(* ================================================================== *)
(** ** The run in exact arithmetic *)

Module Exact.

Local Open Scope Q_scope.

Definition grid_value : list Q :=
  Eval vm_compute in match grid with Some v => v | None => [] end.

Definition initial_value : list Q :=
  Eval vm_compute in match initial grid_value with Some v => v | None => [] end.

Definition dt_value : Q :=
  Eval vm_compute in match dt with Some v => v | None => zero end.

Definition r_value : Q :=
  Eval vm_compute in
    match diffusion_number D dt_value dx with Some v => v | None => zero end.

(** The profile never rises from one grid point to the next. *)
Definition nonincreasing (C : list Q) : Prop :=
  forall i : nat, (S i < length C)%nat -> nth (S i) C 0 <= nth i C 0.

(** Every value lies in the closed interval [lo, hi]. *)
Definition within (lo hi : Q) (C : list Q) : Prop :=
  forall i : nat, (i < length C)%nat -> lo <= nth i C 0 /\ nth i C 0 <= hi.

(** The smallest and the largest value of a field. *)
Definition field_min (C : list Q) : Q := fold_right Qmin (hd 0 C) C.
Definition field_max (C : list Q) : Q := fold_right Qmax (hd 0 C) C.

(** The drop from grid point [i] to its right neighbour. *)
Definition drop (C : list Q) (i : nat) : Q := nth i C 0 - nth (S i) C 0.

(** Each drop in the left half of the domain is at most the drop at the
    mirrored place in the right half: the profile is steeper on the side of
    the low boundary. *)
Definition right_heavy (C : list Q) : Prop :=
  forall i j : nat,
    (i + j + 2 = length C)%nat -> (i <= j)%nat -> drop C i <= drop C j.


End Exact.

(* ================================================================== *)
(** ** Facts that hold in every arithmetic *)

Section StepFacts.
Context {T : Type} {AT : Arith T}.

(** *** Slices *)

Lemma slice_bounds_upto_minus2 (n : nat) :
  slice_bounds None (Some (-2)%Z) n = (0, n - 2).
Proof.
  unfold slice_bounds, clamp_index.
  change (-2 <? 0)%Z with true. cbv iota.
  f_equal; lia.
Qed.

Lemma slice_bounds_1_minus1 (n : nat) :
  slice_bounds (Some 1%Z) (Some (-1)%Z) n = (Nat.min n 1, n - 1).
Proof.
  unfold slice_bounds, clamp_index.
  change (-1 <? 0)%Z with true. change (1 <? 0)%Z with false. cbv iota.
  f_equal; lia.
Qed.

Lemma slice_bounds_from_2 (n : nat) :
  slice_bounds (Some 2%Z) None n = (Nat.min n 2, n).
Proof.
  unfold slice_bounds, clamp_index.
  change (2 <? 0)%Z with false. cbv iota.
  f_equal; lia.
Qed.

Lemma slice_upto_minus2 (C : list T) :
  slice None (Some (-2)%Z) C = firstn (length C - 2) C.
Proof.
  unfold slice. rewrite slice_bounds_upto_minus2.
  now rewrite Nat.sub_0_r.
Qed.

Lemma slice_1_minus1 (C : list T) :
  slice (Some 1%Z) (Some (-1)%Z) C = firstn (length C - 2) (skipn 1 C).
Proof.
  unfold slice. rewrite slice_bounds_1_minus1.
  destruct C as [|a l]; [reflexivity|].
  replace (Nat.min (length (a :: l)) 1) with 1 by (cbn [length]; lia).
  f_equal. lia.
Qed.

Lemma slice_from_2 (C : list T) :
  slice (Some 2%Z) None C = skipn 2 C.
Proof.
  unfold slice. rewrite slice_bounds_from_2.
  destruct C as [|a [|b l]]; try reflexivity.
  replace (Nat.min (length (a :: b :: l)) 2) with 2 by (cbn [length]; lia).
  apply firstn_all2. rewrite length_skipn. lia.
Qed.

(** The three slices of the loop body always have the same shape. *)
Lemma slices_same_shape (C : list T) :
  length (slice None (Some (-2)%Z) C) = length C - 2 /\
  length (slice (Some 1%Z) (Some (-1)%Z) C) = length C - 2 /\
  length (slice (Some 2%Z) None C) = length C - 2.
Proof.
  rewrite slice_upto_minus2, slice_1_minus1, slice_from_2.
  rewrite !length_firstn, !length_skipn. lia.
Qed.

(** *** The right operand as second differences *)

Lemma map2_second_diff (a : T) (l : list T) :
  map2 add
    (map2 sub (firstn (length l - 1) (a :: l))
              (scale (of_int 2) (firstn (length l - 1) l)))
    (skipn 1 l)
  = second_diff a l.
Proof.
  revert a. induction l as [|b l IH]; intros a.
  - reflexivity.
  - destruct l as [|c l'].
    + reflexivity.
    + specialize (IH b).
      cbn [length Nat.sub] in IH |- *. rewrite Nat.sub_0_r in IH.
      cbn [firstn scale map map2 skipn second_diff].
      f_equal.
      cbn [skipn] in IH. unfold scale in IH. exact IH.
Qed.

Lemma stencil_rhs_cons (r a : T) (l : list T) :
  stencil_rhs r (a :: l) = scale r (second_diff a l).
Proof.
  unfold stencil_rhs.
  rewrite slice_upto_minus2, slice_1_minus1, slice_from_2.
  replace (length (a :: l) - 2) with (length l - 1) by (cbn [length]; lia).
  change (skipn 1 (a :: l)) with l.
  change (skipn 2 (a :: l)) with (skipn 1 l).
  now rewrite map2_second_diff.
Qed.

(** *** The in-place addition *)

Lemma iadd_from_cons (j : nat) (E : list T) (a : T) (l : list T) :
  iadd_from (S j) E (a :: l) = a :: iadd_from j E l.
Proof.
  revert j l. induction E as [|e E IH]; intros j l.
  - reflexivity.
  - cbn [iadd_from store nth]. apply IH.
Qed.

Lemma iadd_second_diff (r a : T) (l : list T) :
  iadd_from 0 (scale r (second_diff a l)) l = window r a l.
Proof.
  revert a. induction l as [|b l IH]; intros a.
  - reflexivity.
  - destruct l as [|c l'].
    + reflexivity.
    + cbn [second_diff scale map iadd_from store nth window].
      rewrite iadd_from_cons. f_equal.
      apply (IH b).
Qed.

(** The loop body, as the source evaluates it, is the sliding window. *)
Lemma step_with_window (r : T) (C : list T) :
  step_with r C = step_window r C.
Proof.
  destruct C as [|a l].
  - reflexivity.
  - unfold step_with, iadd_slice. rewrite stencil_rhs_cons.
    rewrite slice_bounds_1_minus1. cbn [fst].
    replace (Nat.min (length (a :: l)) 1) with 1 by (cbn [length]; lia).
    rewrite iadd_from_cons. cbn [step_window]. f_equal.
    apply iadd_second_diff.
Qed.

(** *** Length and elements of the new field *)

Lemma window_length (r a : T) (l : list T) :
  length (window r a l) = length l.
Proof.
  revert a. induction l as [|b l IH]; intros a.
  - reflexivity.
  - destruct l as [|c l']; [reflexivity|].
    cbn [window length]. f_equal. apply (IH b).
Qed.

Lemma window_nth (r a : T) (l : list T) (j : nat) :
  nth j (window r a l) zero =
  if j + 1 <? length l
  then add (nth j l zero)
           (mul r (add (sub (nth j (a :: l) zero)
                            (mul (of_int 2) (nth j l zero)))
                       (nth (S j) l zero)))
  else nth j l zero.
Proof.
  revert a j. induction l as [|b l IH]; intros a j.
  - destruct j; reflexivity.
  - destruct l as [|c l'].
    + destruct j as [|[|j]]; reflexivity.
    + destruct j as [|j].
      * reflexivity.
      * change (nth (S j) (window r a (b :: c :: l')) zero)
          with (nth j (window r b (c :: l')) zero).
        rewrite (IH b j).
        change (S j + 1 <? length (b :: c :: l'))
          with (j + 1 <? length (c :: l')).
        reflexivity.
Qed.

Lemma step_with_length (r : T) (C : list T) :
  length (step_with r C) = length C.
Proof.
  rewrite step_with_window. destruct C as [|a l]; [reflexivity|].
  cbn [step_window length]. now rewrite window_length.
Qed.

Lemma step_with_nth (r : T) (C : list T) (i : nat) :
  nth i (step_with r C) zero =
  if interior (length C) i then stencil_at r C i else nth i C zero.
Proof.
  rewrite step_with_window. unfold interior, stencil_at.
  destruct C as [|a l].
  - destruct i; reflexivity.
  - destruct i as [|i].
    + reflexivity.
    + cbn [step_window]. change (nth (S i) (a :: window r a l) zero)
        with (nth i (window r a l) zero).
      rewrite window_nth.
      change (1 <=? S i) with true. cbn [andb].
      change (S i + 1 <? length (a :: l)) with (i + 1 <? length l).
      replace (S i - 1) with i by lia.
      replace (S i + 1) with (S (S i)) by lia.
      reflexivity.
Qed.

Lemma step_ref_length (r : T) (C : list T) :
  length (step_ref r C) = length C.
Proof. unfold step_ref. now rewrite length_map, length_seq. Qed.

Lemma step_ref_nth (r : T) (C : list T) (i : nat) :
  nth i (step_ref r C) zero =
  if interior (length C) i then stencil_at r C i else nth i C zero.
Proof.
  unfold step_ref.
  destruct (Nat.lt_ge_cases i (length C)) as [Hi|Hi].
  - rewrite (nth_indep _ zero
               (if interior (length C) (length C) then stencil_at r C (length C)
                else nth (length C) C zero))
      by (now rewrite length_map, length_seq).
    rewrite (map_nth (fun i => if interior (length C) i then stencil_at r C i
                               else nth i C zero)).
    now rewrite seq_nth.
  - rewrite nth_overflow by (now rewrite length_map, length_seq).
    unfold interior.
    replace (i + 1 <? length C) with false
      by (symmetry; apply Nat.ltb_ge; lia).
    rewrite andb_false_r. now rewrite nth_overflow.
Qed.

Lemma step_with_ref (r : T) (C : list T) : step_with r C = step_ref r C.
Proof.
  apply (nth_ext _ _ zero zero).
  - now rewrite step_with_length, step_ref_length.
  - intros i _. now rewrite step_with_nth, step_ref_nth.
Qed.

(** Fields with fewer than three points have no interior. *)
Lemma step_with_short (r : T) (C : list T) :
  length C < 3 -> step_with r C = C.
Proof.
  intros H. rewrite step_with_window.
  destruct C as [|a [|b [|c l]]]; try reflexivity.
  cbn [length] in H. lia.
Qed.

(** *** The loop *)

Lemma step_some (D dt dx r : T) (C : list T) :
  diffusion_number D dt dx = Some r ->
  step D dt dx C = Some (step_with r C).
Proof. intros H. unfold step. now rewrite H. Qed.

Lemma diffusion_number_some (D dt dx sq : T) :
  py_pow2 dx = Some sq ->
  is_zero sq = false ->
  diffusion_number D dt dx = Some (div (mul D dt) sq).
Proof.
  intros Hsq H. unfold diffusion_number. rewrite Hsq. cbn [bind].
  unfold py_div. now rewrite H.
Qed.

(** The two ways in which the diffusion number is not obtained: the square
    overflows, or it is zero. *)
Lemma diffusion_number_none (D dt dx : T) :
  diffusion_number D dt dx = None <->
  (py_pow2 dx = None \/
   exists sq : T, py_pow2 dx = Some sq /\ is_zero sq = true).
Proof.
  unfold diffusion_number, py_div.
  destruct (py_pow2 dx) as [sq|]; cbn [bind].
  - destruct (is_zero sq) eqn:E.
    + split; [intros _; right; exists sq; now split|reflexivity].
    + split; [discriminate|].
      intros [H|(sq' & H & H')]; [discriminate H|].
      injection H as <-. rewrite E in H'. discriminate H'.
  - split; [intros _; now left|reflexivity].
Qed.

Lemma step_none (D dt dx : T) (C : list T) :
  diffusion_number D dt dx = None -> step D dt dx C = None.
Proof. intros H. unfold step. now rewrite H. Qed.

Lemma loop_none (D dt dx : T) (k : nat) (C : list T) :
  diffusion_number D dt dx = None -> loop (S k) D dt dx C = None.
Proof. intros H. cbn [loop]. now rewrite (step_none D dt dx C H). Qed.

Lemma loop_steps (D dt dx r : T) (k : nat) (C : list T) :
  diffusion_number D dt dx = Some r ->
  loop k D dt dx C = Some (steps k r C).
Proof.
  intros H. revert C. induction k as [|k IH]; intros C.
  - reflexivity.
  - cbn [loop steps]. rewrite (@step_some D dt dx r C H). cbn [bind]. apply IH.
Qed.

Lemma steps_S (k : nat) (r : T) (C : list T) :
  steps (S k) r C = step_with r (steps k r C).
Proof.
  revert C. induction k as [|k IH]; intros C.
  - reflexivity.
  - change (steps (S (S k)) r C) with (steps (S k) r (step_with r C)).
    rewrite IH. reflexivity.
Qed.

Lemma steps_length (k : nat) (r : T) (C : list T) :
  length (steps k r C) = length C.
Proof.
  induction k as [|k IH]; [reflexivity|].
  now rewrite steps_S, step_with_length.
Qed.

Lemma steps_short (k : nat) (r : T) (C : list T) :
  length C < 3 -> steps k r C = C.
Proof.
  intros H. induction k as [|k IH]; [reflexivity|].
  rewrite steps_S, IH. now apply step_with_short.
Qed.

Lemma interior_first (n : nat) : interior n 0 = false.
Proof. reflexivity. Qed.

Lemma interior_last (n : nat) : interior n (n - 1) = false.
Proof.
  unfold interior. destruct n as [|n]; [reflexivity|].
  replace (S n - 1 + 1 <? S n) with false
    by (symmetry; apply Nat.ltb_ge; lia).
  apply andb_false_r.
Qed.

Lemma steps_boundary (k : nat) (r : T) (C : list T) :
  nth 0 (steps k r C) zero = nth 0 C zero /\
  nth (length C - 1) (steps k r C) zero = nth (length C - 1) C zero.
Proof.
  induction k as [|k [IH0 IHn]]; [split; reflexivity|].
  rewrite steps_S, !step_with_nth, steps_length.
  now rewrite interior_first, interior_last.
Qed.

(** Whatever the loop returns is the result of its passes. *)
Lemma loop_result (D dt dx : T) (k : nat) (C C' : list T) :
  loop k D dt dx C = Some C' -> exists r : T, C' = steps k r C.
Proof.
  intros H. destruct (diffusion_number D dt dx) as [r|] eqn:E.
  - exists r. rewrite (loop_steps D dt dx r k C E) in H. now injection H.
  - destruct k as [|k].
    + exists zero. cbn [loop] in H. now injection H.
    + rewrite (loop_none D dt dx k C E) in H. discriminate H.
Qed.

(** *** Checking along a run *)

Lemma check_along_ext (f g : list T -> list T) (p : nat -> list T -> bool) :
  (forall C, f C = g C) ->
  forall (n i : nat) (C : list T),
    check_along f p i n C = check_along g p i n C.
Proof.
  intros E. induction n as [|n IH]; intros i C; [reflexivity|].
  cbn [check_along]. rewrite (E C). now rewrite IH.
Qed.

(** The run may be checked on the sliding-window form of the pass. *)
Lemma check_run_window (p : nat -> list T -> bool) (i n : nat) (r : T)
  (C : list T) :
  check_run p i n r C = check_along (step_window r) p i n C.
Proof. apply check_along_ext. intros C'. apply step_with_window. Qed.

Lemma check_run_sound (p : nat -> list T -> bool) (n : nat) (r : T) :
  forall (i : nat) (C : list T),
    check_run p i n r C = true ->
    forall k, 1 <= k <= n -> p (i + k) (steps k r C) = true.
Proof.
  unfold check_run.
  induction n as [|n IH]; intros i C H k Hk; [lia|].
  cbn [check_along] in H. apply andb_prop in H. destruct H as [H1 H2].
  destruct k as [|k]; [lia|].
  cbn [steps]. destruct k as [|k].
  - cbn [steps]. now replace (i + 1) with (S i) by lia.
  - replace (i + S (S k)) with (S i + S k) by lia.
    apply (IH (S i) (step_with r C) H2). lia.
Qed.



(** Pointwise facts from a computed table. *)
Lemma below_from_table {A : Type} (f g : nat -> A) (n : nat) :
  map f (seq 0 n) = map g (seq 0 n) ->
  forall i, i < n -> f i = g i.
Proof.
  intros H i Hi. apply (ext_in_map H). apply in_seq. lia.
Qed.

End StepFacts.

(* ================================================================== *)
(** ** The evaluated cells of the binary64 run *)

Section B64Facts.

Lemma b64_grid : @grid float _ = Some B64.grid_value.
Proof. vm_compute. reflexivity. Qed.

Lemma b64_initial : initial B64.grid_value = Some B64.initial_value.
Proof. vm_compute. reflexivity. Qed.

Lemma b64_dt : @dt float _ = Some B64.dt_value.
Proof. vm_compute. reflexivity. Qed.

Lemma b64_diffusion_number :
  diffusion_number D B64.dt_value dx = Some B64.r_value.
Proof. vm_compute. reflexivity. Qed.

Lemma b64_field_after (k : nat) :
  @field_after float _ k = Some (steps k B64.r_value B64.initial_value).
Proof.
  unfold field_after. rewrite b64_grid. cbn [bind].
  rewrite b64_initial. cbn [bind]. rewrite b64_dt. cbn [bind].
  apply loop_steps. exact b64_diffusion_number.
Qed.

(** The literals of the source denote the doubles one expects. *)
Lemma b64_literals :
  @dx float _ = 0.5%float /\ @D float _ = 100%float /\
  @Lx float _ = 300%float /\ @C_left float _ = 500%float /\
  @C_right float _ = 0%float /\ B64.midpoint = 150%float /\
  B64.r_value = 0.5%float.
Proof. vm_compute. repeat split. Qed.

(** The single-buffer sweep is a different function: on a four-point step it
    feeds the freshly written 250 into the next point. *)
Lemma sweep_reads_updated_neighbour :
  step_with 0.5%float [500; 500; 0; 0]%float = [500; 250; 250; 0]%float /\
  step_sweep 0.5%float [500; 500; 0; 0]%float = [500; 250; 125; 0]%float.
Proof. vm_compute. split; reflexivity. Qed.

End B64Facts.

(* ================================================================== *)
(** ** The stepping contract *)

(** C1. For a field of at least three points, and constants [D], [dt],
    [dx] for which [dx ** 2] is computed and is not zero, one pass of the
    loop body yields a field of the same length whose interior values are
    [C[i] + (D*dt/dx^2) * (C[i-1] - 2*C[i] + C[i+1])], computed from the old
    field with the value [sq] of [dx ** 2], and whose two boundary values
    are those of the old field. *)
Theorem step_contract
  (T : Type) (AT : Arith T) (D dt dx sq : T) (C : list T) :
  3 <= length C ->
  py_pow2 dx = Some sq ->
  is_zero sq = false ->
  exists C' : list T,
    step D dt dx C = Some C' /\
    length C' = length C /\
    (forall i : nat,
        1 <= i <= length C - 2 ->
        nth i C' zero =
        add (nth i C zero)
            (mul (div (mul D dt) sq)
                 (add (sub (nth (i - 1) C zero)
                           (mul (of_int 2) (nth i C zero)))
                      (nth (i + 1) C zero)))) /\
    nth 0 C' zero = nth 0 C zero /\
    nth (length C - 1) C' zero = nth (length C - 1) C zero.
Proof.
  intros Hlen Hsq Hdx.
  exists (step_with (div (mul D dt) sq) C).
  split; [apply step_some; now apply diffusion_number_some|].
  split; [apply step_with_length|].
  split; [|split].
  - intros i Hi. rewrite step_with_nth. unfold interior.
    replace (1 <=? i) with true by (symmetry; apply Nat.leb_le; lia).
    replace (i + 1 <? length C) with true by (symmetry; apply Nat.ltb_lt; lia).
    reflexivity.
  - now rewrite step_with_nth, interior_first.
  - now rewrite step_with_nth, interior_last.
Qed.

Lemma step_contract_witness :
  exists C' : list float,
    step D B64.dt_value dx [500; 500; 0; 0]%float = Some C' /\
    nth 1 C' zero = 250%float /\ nth 2 C' zero = 250%float /\
    nth 0 C' zero = 500%float /\ nth 3 C' zero = 0%float.
Proof.
  destruct (@step_contract float binary64 D B64.dt_value dx 0.25%float
              [500; 500; 0; 0]%float) as (C' & Hs & _ & Hi & H0 & Hn).
  - cbn [length]. lia.
  - vm_compute. reflexivity.
  - vm_compute. reflexivity.
  - exists C'. split; [exact Hs|].
    split; [rewrite (Hi 1) by (cbn [length]; lia); vm_compute; reflexivity|].
    split; [rewrite (Hi 2) by (cbn [length]; lia); vm_compute; reflexivity|].
    split; [rewrite H0; reflexivity|].
    cbn [length Nat.sub] in Hn. rewrite Hn. reflexivity.
Defined.

(** C2. Whatever the initial field, the constants and the number of passes,
    a field the loop returns has the length of the initial one and the
    initial elements at index 0 and at index [nx-1]; the loop does return a
    field whenever [dx ** 2] is computed and is not zero; the binary64 run of
    the notebook ends, after its 5000 passes, with [C[0] = 500] and
    [C[599] = 0]. *)
Theorem boundaries_fixed :
  (forall (T : Type) (AT : Arith T) (D dt dx : T) (C C' : list T) (k : nat),
      loop k D dt dx C = Some C' ->
      length C' = length C /\
      nth 0 C' zero = nth 0 C zero /\
      nth (length C - 1) C' zero = nth (length C - 1) C zero) /\
  (forall (T : Type) (AT : Arith T) (D dt dx sq : T) (C : list T) (k : nat),
      py_pow2 dx = Some sq ->
      is_zero sq = false ->
      exists C' : list T, loop k D dt dx C = Some C') /\
  (exists C : list float,
      final_field = Some C /\
      length C = 600 /\
      nth 0 C zero = 500%float /\
      nth 599 C zero = 0%float).
Proof.
  split; [|split].
  - intros T AT D dt dx C C' k H.
    destruct (loop_result D dt dx k C C' H) as (r & ->).
    split; [apply steps_length|]. apply steps_boundary.
  - intros T AT D dt dx sq C k Hsq Hdx.
    exists (steps k (div (mul D dt) sq) C).
    apply loop_steps. now apply diffusion_number_some.
  - exists (steps nt B64.r_value B64.initial_value).
    split; [apply b64_field_after|].
    split; [now rewrite steps_length|].
    destruct (steps_boundary nt B64.r_value B64.initial_value) as [H0 Hn].
    split; [rewrite H0; reflexivity|].
    change (length B64.initial_value - 1) with 599 in Hn.
    rewrite Hn. reflexivity.
Qed.

Lemma boundaries_fixed_witness :
  exists C' : list float,
    loop 3 D B64.dt_value dx [500; 500; 0; 0]%float = Some C' /\
    nth 0 C' zero = 500%float /\ nth 3 C' zero = 0%float.
Proof.
  destruct (proj1 (proj2 boundaries_fixed) float binary64 D B64.dt_value dx
              0.25%float [500; 500; 0; 0]%float 3) as (C' & Hl).
  - vm_compute. reflexivity.
  - vm_compute. reflexivity.
  - destruct (proj1 boundaries_fixed float binary64 D B64.dt_value dx
                [500; 500; 0; 0]%float C' 3 Hl) as (_ & H0 & Hn).
    exists C'. split; [exact Hl|]. split; [exact H0|exact Hn].
Defined.

(** C3. The in-place slice update of the source computes the same field as
    the double-buffered reference step, which fills a fresh buffer from the
    values the field had when the pass began; so does the loop body with its
    diffusion number. *)
Theorem in_place_is_double_buffered :
  forall (T : Type) (AT : Arith T) (C : list T),
    (forall r : T, step_with r C = step_ref r C) /\
    (forall D dt dx : T,
        step D dt dx C =
        option_map (fun r => step_ref r C) (diffusion_number D dt dx)).
Proof.
  intros T AT C. split.
  - intros r. apply step_with_ref.
  - intros D dt dx. unfold step.
    destruct (diffusion_number D dt dx) as [r|]; cbn [bind option_map].
    + now rewrite step_with_ref.
    + reflexivity.
Qed.

(** C9. A field of fewer than three points has no interior: the right
    operand of the update is empty whatever the diffusion number, a field
    returned by any number of passes is the field as it was, and the passes
    do return it whenever [dx ** 2] is computed and is not zero. *)
Theorem short_field_unchanged
  (T : Type) (AT : Arith T) (D dt dx : T) (C : list T) (k : nat) :
  length C < 3 ->
  (forall r : T, stencil_rhs r C = []) /\
  (forall C' : list T, loop k D dt dx C = Some C' -> C' = C) /\
  (forall sq : T,
      py_pow2 dx = Some sq -> is_zero sq = false ->
      loop k D dt dx C = Some C).
Proof.
  intros Hlen. split; [|split].
  - intros r. destruct C as [|a [|b [|c l]]].
    + reflexivity.
    + now rewrite stencil_rhs_cons.
    + now rewrite stencil_rhs_cons.
    + cbn [length] in Hlen. lia.
  - intros C' H. destruct (loop_result D dt dx k C C' H) as (r & ->).
    now apply steps_short.
  - intros sq Hsq Hdx.
    rewrite (loop_steps D dt dx _ k C (diffusion_number_some D dt dx sq Hsq Hdx)).
    now rewrite steps_short.
Qed.

Lemma short_field_unchanged_witness :
  stencil_rhs 0.5%float [500; 0]%float = [] /\
  loop 7 D B64.dt_value dx [500; 0]%float = Some [500; 0]%float.
Proof.
  destruct (@short_field_unchanged float binary64 D B64.dt_value dx
              [500; 0]%float 7) as (Hr & _ & Hl).
  - cbn [length]. lia.
  - split; [apply Hr|].
    apply (Hl 0.25%float); vm_compute; reflexivity.
Defined.

(* ================================================================== *)
(** ** The time step *)

Lemma exact_is_zero_false (q : Q) : ~ (q == 0)%Q -> @is_zero Q _ q = false.
Proof.
  intros H. cbn [is_zero exact].
  destruct (Qeq_bool q 0) eqn:E; [|reflexivity].
  apply Qeq_bool_iff in E. contradiction.
Qed.

(** C4. The cell [dt = 0.5 * dx **2/ D] makes the diffusion number
    [D*dt/dx^2] one half: in binary64 with the constants of the notebook,
    where [dt] is the double written 0.00125 and the quotient is 0.5 without
    rounding error, and in exact arithmetic for every non-zero diffusivity and
    spacing. *)
Theorem time_step_derivation :
  (@dt float _ = Some (literal 125 5) /\
   @literal float _ 125 5 = 0x1.47ae147ae147bp-10%float /\
   @dt float _ = stable_dt 100%float 0.5%float /\
   diffusion_number 100%float (literal 125 5) 0.5%float = Some 0.5%float) /\
  (@dt Q _ = Some Exact.dt_value /\ (Exact.dt_value == 125 # 100000)%Q) /\
  (forall Dq dxq : Q,
      ~ (Dq == 0)%Q -> ~ (dxq == 0)%Q ->
      exists dtq rq : Q,
        stable_dt Dq dxq = Some dtq /\
        (dtq == (1 # 2) * (dxq * dxq) / Dq)%Q /\
        diffusion_number Dq dtq dxq = Some rq /\
        (rq == 1 # 2)%Q).
Proof.
  split; [|split].
  - vm_compute. repeat split.
  - split; [vm_compute; reflexivity|reflexivity].
  - intros Dq dxq HD Hdx.
    assert (Hsq : ~ (dxq * dxq == 0)%Q).
    { intros E. apply Qmult_integral in E. tauto. }
    exists (div (mul (literal 5 1) (mul dxq dxq)) Dq).
    exists (div (mul Dq (div (mul (literal 5 1) (mul dxq dxq)) Dq))
                (mul dxq dxq)).
    split; [|split; [|split]].
    + unfold stable_dt, py_pow2, py_div. cbn [pow2 exact bind].
      now rewrite (exact_is_zero_false Dq HD).
    + cbn. field. exact HD.
    + apply diffusion_number_some; [reflexivity|].
      apply exact_is_zero_false. exact Hsq.
    + cbn. field. split; assumption.
Qed.

Lemma time_step_derivation_witness :
  exists dtq rq : Q,
    stable_dt (100 # 1) (1 # 2) = Some dtq /\
    (dtq == (1 # 2) * ((1 # 2) * (1 # 2)) / (100 # 1))%Q /\
    diffusion_number (100 # 1) dtq (1 # 2) = Some rq /\
    (rq == 1 # 2)%Q.
Proof.
  apply (proj2 (proj2 time_step_derivation) (100 # 1)%Q (1 # 2)%Q).
  - intros E. discriminate E.
  - intros E. discriminate E.
Defined.

(* ================================================================== *)
(** ** Grid and initial condition *)

(** C6. The grid of the notebook has [nx = Lx/dx = 600] points; the point of
    index [i] is [i * dx], the first is 0, consecutive points are [dx] apart
    and in increasing order, and all of them lie below [Lx] (the last is
    [Lx - dx = 299.5]). *)
Theorem grid_evenly_spaced :
  @grid float _ = Some B64.grid_value /\
  length B64.grid_value = 600 /\
  @div float _ Lx dx = of_int 600 /\
  @dx float _ = 0.5%float /\
  nth 0 B64.grid_value zero = 0%float /\
  nth 599 B64.grid_value zero = 299.5%float /\
  (forall i : nat,
      i < 600 ->
      nth i B64.grid_value zero = mul (of_int (Z.of_nat i)) dx /\
      gtb Lx (nth i B64.grid_value zero) = true) /\
  (forall i : nat,
      S i < 600 ->
      sub (nth (S i) B64.grid_value zero) (nth i B64.grid_value zero) = dx /\
      gtb (nth (S i) B64.grid_value zero) (nth i B64.grid_value zero) = true).
Proof.
  split; [exact b64_grid|].
  split; [reflexivity|].
  split; [vm_compute; reflexivity|].
  split; [vm_compute; reflexivity|].
  split; [vm_compute; reflexivity|].
  split; [vm_compute; reflexivity|].
  split.
  - intros i Hi. split.
    + apply (below_from_table
               (fun i => nth i B64.grid_value zero)
               (fun i => mul (of_int (Z.of_nat i)) dx) 600);
        [vm_compute; reflexivity|exact Hi].
    + apply (below_from_table
               (fun i => gtb Lx (nth i B64.grid_value zero))
               (fun _ => true) 600);
        [vm_compute; reflexivity|exact Hi].
  - intros i Hi. split.
    + apply (below_from_table
               (fun i => sub (nth (S i) B64.grid_value zero)
                             (nth i B64.grid_value zero))
               (fun _ => dx) 599);
        [vm_compute; reflexivity|lia].
    + apply (below_from_table
               (fun i => gtb (nth (S i) B64.grid_value zero)
                             (nth i B64.grid_value zero))
               (fun _ => true) 599);
        [vm_compute; reflexivity|lia].
Qed.

Lemma grid_evenly_spaced_witness :
  nth 7 B64.grid_value zero = mul (of_int 7) dx /\
  gtb Lx (nth 7 B64.grid_value zero) = true.
Proof.
  apply (proj1 (proj2 (proj2 (proj2 (proj2 (proj2 (proj2
           grid_evenly_spaced)))))) 7).
  lia.
Defined.

(** C5. The initial field of the notebook is a step function: at every grid
    index the value is [C_left = 500] where [x[i] <= Lx/2] and
    [C_right = 0] where [x[i] > Lx/2]; the grid point of index 300 lies
    exactly at [Lx/2 = 150] and holds 500. *)
Theorem initial_step_function :
  initial B64.grid_value = Some B64.initial_value /\
  length B64.initial_value = 600 /\
  @py_div float _ Lx (of_int 2) = Some B64.midpoint /\
  @C_left float _ = 500%float /\
  @C_right float _ = 0%float /\
  (forall i : nat,
      i < 600 ->
      (leb (nth i B64.grid_value zero) B64.midpoint = true ->
       nth i B64.initial_value zero = C_left) /\
      (gtb (nth i B64.grid_value zero) B64.midpoint = true ->
       nth i B64.initial_value zero = C_right)) /\
  nth 300 B64.grid_value zero = B64.midpoint /\
  nth 300 B64.initial_value zero = C_left /\
  nth 301 B64.initial_value zero = C_right.
Proof.
  split; [exact b64_initial|].
  split; [reflexivity|].
  split; [vm_compute; reflexivity|].
  split; [vm_compute; reflexivity|].
  split; [vm_compute; reflexivity|].
  split; [|vm_compute; repeat split].
  intros i Hi. split; intros Hc.
  - assert (E : (if leb (nth i B64.grid_value zero) B64.midpoint
                 then nth i B64.initial_value zero else C_left) = C_left).
    { apply (below_from_table
               (fun i => if leb (nth i B64.grid_value zero) B64.midpoint
                         then nth i B64.initial_value zero else C_left)
               (fun _ => C_left) 600);
        [vm_compute; reflexivity|exact Hi]. }
    rewrite Hc in E. exact E.
  - assert (E : (if gtb (nth i B64.grid_value zero) B64.midpoint
                 then nth i B64.initial_value zero else C_right) = C_right).
    { apply (below_from_table
               (fun i => if gtb (nth i B64.grid_value zero) B64.midpoint
                         then nth i B64.initial_value zero else C_right)
               (fun _ => C_right) 600);
        [vm_compute; reflexivity|exact Hi]. }
    rewrite Hc in E. exact E.
Qed.

Lemma initial_step_function_witness :
  nth 300 B64.initial_value zero = C_left /\
  nth 301 B64.initial_value zero = C_right.
Proof.
  destruct initial_step_function as (_ & _ & _ & _ & _ & H & _).
  split.
  - apply (proj1 (H 300 ltac:(lia))). vm_compute. reflexivity.
  - apply (proj2 (H 301 ltac:(lia))). vm_compute. reflexivity.
Defined.

(* ================================================================== *)
(** ** One pass in exact arithmetic *)

Section ExactStep.
Local Open Scope Q_scope.

Variable r : Q.
Hypothesis r_half : r == 1 # 2.

Lemma exact_step_first (C : list Q) :
  nth 0 (step_with r C) 0 = nth 0 C 0.
Proof.
  change 0 with (@zero Q _). now rewrite step_with_nth, interior_first.
Qed.

Lemma exact_step_last (C : list Q) (i : nat) :
  (length C <= S i)%nat -> nth i (step_with r C) 0 = nth i C 0.
Proof.
  intros H. change 0 with (@zero Q _). rewrite step_with_nth.
  unfold interior.
  replace (i + 1 <? length C)%nat with false
    by (symmetry; apply Nat.ltb_ge; lia).
  now rewrite andb_false_r.
Qed.

(** With [r = 1/2] an interior value becomes the mean of its two old
    neighbours. *)
Lemma exact_step_mid (C : list Q) (i : nat) :
  (S (S i) < length C)%nat ->
  nth (S i) (step_with r C) 0 == (nth i C 0 + nth (S (S i)) C 0) * (1 # 2).
Proof.
  intros H. change 0 with (@zero Q _). rewrite step_with_nth.
  unfold interior.
  replace (S i + 1 <? length C)%nat with true
    by (symmetry; apply Nat.ltb_lt; lia).
  change (1 <=? S i)%nat with true. cbn [andb].
  unfold stencil_at.
  replace (S i - 1)%nat with i by lia.
  replace (S i + 1)%nat with (S (S i)) by lia.
  cbn [add sub mul of_int exact]. change (inject_Z 2) with (2 # 1).
  rewrite r_half. ring.
Qed.

Lemma step_keeps_nonincreasing (C : list Q) :
  Exact.nonincreasing C -> Exact.nonincreasing (step_with r C).
Proof.
  intros H i Hi. rewrite step_with_length in Hi.
  destruct i as [|i].
  - rewrite exact_step_first.
    destruct (Nat.lt_ge_cases 2 (length C)) as [Hn|Hn].
    + rewrite (exact_step_mid C 0 Hn).
      assert (H0 := H 0%nat Hi). assert (H1 := H 1%nat Hn). lra.
    + rewrite exact_step_last by lia. apply H. exact Hi.
  - assert (Hm : (S (S i) < length C)%nat) by lia.
    rewrite (exact_step_mid C i Hm).
    assert (H0 := H i ltac:(lia)). assert (H1 := H (S i) Hi).
    destruct (Nat.lt_ge_cases (S (S (S i))) (length C)) as [Hn|Hn].
    + rewrite (exact_step_mid C (S i) Hn).
      assert (H2 := H (S (S i)) Hn). lra.
    + rewrite exact_step_last by lia. lra.
Qed.

Lemma step_keeps_within (lo hi : Q) (C : list Q) :
  Exact.within lo hi C -> Exact.within lo hi (step_with r C).
Proof.
  intros H i Hi. rewrite step_with_length in Hi.
  destruct i as [|i].
  - rewrite exact_step_first. apply H. exact Hi.
  - destruct (Nat.lt_ge_cases (S (S i)) (length C)) as [Hn|Hn].
    + rewrite (exact_step_mid C i Hn).
      destruct (H i ltac:(lia)) as [A1 A2].
      destruct (H (S (S i)) Hn) as [B1 B2]. split; lra.
    + rewrite exact_step_last by lia. apply H. exact Hi.
Qed.

Lemma step_keeps_right_heavy (C : list Q) :
  Nat.even (length C) = true ->
  Exact.right_heavy C -> Exact.right_heavy (step_with r C).
Proof.
  intros Hev H i j Hij Hle. rewrite step_with_length in Hij.
  apply Nat.even_spec in Hev. destruct Hev as [m Hm].
  destruct (Nat.eq_dec i j) as [->|Hne]; [apply Qle_refl|].
  assert (Hj : (i + 2 <= j)%nat) by lia.
  unfold Exact.drop.
  destruct j as [|[|j]]; [lia|lia|].
  destruct i as [|i].
  - rewrite exact_step_first.
    rewrite (exact_step_mid C 0) by lia.
    rewrite (exact_step_mid C (S j)) by lia.
    rewrite (exact_step_last C (S (S (S j)))) by lia.
    assert (A := H 0%nat (S (S j)) ltac:(lia) ltac:(lia)).
    assert (B := H 1%nat (S j) ltac:(lia) ltac:(lia)).
    unfold Exact.drop in A, B. lra.
  - rewrite (exact_step_mid C i) by lia.
    rewrite (exact_step_mid C (S i)) by lia.
    rewrite (exact_step_mid C (S j)) by lia.
    rewrite (exact_step_mid C (S (S j))) by lia.
    assert (A := H i (S (S (S j))) ltac:(lia) ltac:(lia)).
    assert (B := H (S (S i)) (S j) ltac:(lia) ltac:(lia)).
    unfold Exact.drop in A, B. lra.
Qed.

(** *** Total mass *)






(** *** Smallest and largest value *)

Lemma fold_min_below (d : Q) (C : list Q) (i : nat) :
  (i < length C)%nat -> fold_right Qmin d C <= nth i C 0.
Proof.
  revert i. induction C as [|a C IH]; intros i Hi; cbn [length] in Hi; [lia|].
  cbn [fold_right]. destruct i as [|i]; cbn [nth].
  - apply Q.le_min_l.
  - eapply Qle_trans; [apply Q.le_min_r|]. apply IH. lia.
Qed.

Lemma fold_max_above (d : Q) (C : list Q) (i : nat) :
  (i < length C)%nat -> nth i C 0 <= fold_right Qmax d C.
Proof.
  revert i. induction C as [|a C IH]; intros i Hi; cbn [length] in Hi; [lia|].
  cbn [fold_right]. destruct i as [|i]; cbn [nth].
  - apply Q.le_max_l.
  - eapply Qle_trans; [|apply Q.le_max_r]. apply IH. lia.
Qed.

Lemma within_min_max (C : list Q) :
  Exact.within (Exact.field_min C) (Exact.field_max C) C.
Proof.
  intros i Hi. split; [now apply fold_min_below|now apply fold_max_above].
Qed.

End ExactStep.

(* ================================================================== *)
(** ** The run in exact arithmetic *)

Section ExactRun.
Local Open Scope Q_scope.

Lemma exact_grid : @grid Q _ = Some Exact.grid_value.
Proof. vm_compute. reflexivity. Qed.

Lemma exact_initial : initial Exact.grid_value = Some Exact.initial_value.
Proof. vm_compute. reflexivity. Qed.

Lemma exact_dt : @dt Q _ = Some Exact.dt_value.
Proof. vm_compute. reflexivity. Qed.

Lemma exact_diffusion_number :
  diffusion_number D Exact.dt_value dx = Some Exact.r_value.
Proof. vm_compute. reflexivity. Qed.

Lemma exact_r_half : Exact.r_value == 1 # 2.
Proof. reflexivity. Qed.

Lemma exact_field_after (k : nat) :
  @field_after Q _ k = Some (steps k Exact.r_value Exact.initial_value).
Proof.
  unfold field_after. rewrite exact_grid. cbn [bind].
  rewrite exact_initial. cbn [bind]. rewrite exact_dt. cbn [bind].
  apply loop_steps. exact exact_diffusion_number.
Qed.

Lemma qle_below_from_table (f g : nat -> Q) (n : nat) :
  forallb (fun i => Qle_bool (f i) (g i)) (seq 0 n) = true ->
  forall i : nat, (i < n)%nat -> f i <= g i.
Proof.
  intros H i Hi. rewrite forallb_forall in H.
  apply Qle_bool_iff. apply H. apply in_seq. lia.
Qed.

Lemma exact_initial_length : length Exact.initial_value = 600%nat.
Proof. reflexivity. Qed.

Lemma exact_initial_nonincreasing : Exact.nonincreasing Exact.initial_value.
Proof.
  intros i Hi. rewrite exact_initial_length in Hi.
  apply (qle_below_from_table
           (fun i => nth (S i) Exact.initial_value 0)
           (fun i => nth i Exact.initial_value 0) 599);
    [vm_compute; reflexivity|lia].
Qed.

Lemma exact_initial_within : Exact.within 0 (500 # 1) Exact.initial_value.
Proof.
  intros i Hi. rewrite exact_initial_length in Hi. split.
  - apply (qle_below_from_table
             (fun _ => 0) (fun i => nth i Exact.initial_value 0) 600);
      [vm_compute; reflexivity|lia].
  - apply (qle_below_from_table
             (fun i => nth i Exact.initial_value 0) (fun _ => 500 # 1) 600);
      [vm_compute; reflexivity|lia].
Qed.

Lemma exact_initial_right_heavy : Exact.right_heavy Exact.initial_value.
Proof.
  intros i j Hij Hle. rewrite exact_initial_length in Hij.
  replace j with (598 - i)%nat by lia.
  apply (qle_below_from_table
           (fun i => Exact.drop Exact.initial_value i)
           (fun i => Exact.drop Exact.initial_value (598 - i)) 300);
    [vm_compute; reflexivity|lia].
Qed.

(** What every field of the exact run satisfies. *)
Lemma exact_run_invariant (k : nat) :
  let C := steps k Exact.r_value Exact.initial_value in
  length C = 600%nat /\
  Exact.nonincreasing C /\
  Exact.within 0 (500 # 1) C /\
  Exact.right_heavy C.
Proof.
  induction k as [|k IH]; cbv zeta in *.
  - split; [exact exact_initial_length|].
    split; [exact exact_initial_nonincreasing|].
    split; [exact exact_initial_within|exact exact_initial_right_heavy].
  - destruct IH as (Hl & Hm & Hw & Hr). rewrite steps_S.
    split; [now rewrite step_with_length|].
    split; [now apply step_keeps_nonincreasing; [exact exact_r_half|]|].
    split; [now apply step_keeps_within; [exact exact_r_half|]|].
    apply step_keeps_right_heavy; [exact exact_r_half| |exact Hr].
    rewrite Hl. reflexivity.
Qed.




(** The derived time step gives the diffusion number one half. *)
Lemma exact_derived_number (Dq dxq dtq : Q) :
  ~ Dq == 0 -> ~ dxq == 0 ->
  stable_dt Dq dxq = Some dtq ->
  exists rq : Q, diffusion_number Dq dtq dxq = Some rq /\ rq == 1 # 2.
Proof.
  intros HD Hdx Hdt.
  assert (Hsq : ~ dxq * dxq == 0).
  { intros E. apply Qmult_integral in E. tauto. }
  unfold stable_dt, py_pow2, py_div in Hdt. cbn [pow2 exact bind] in Hdt.
  rewrite (exact_is_zero_false Dq HD) in Hdt. injection Hdt as <-.
  eexists. split.
  - apply diffusion_number_some; [reflexivity|].
    apply exact_is_zero_false. exact Hsq.
  - cbn. field. split; assumption.
Qed.

End ExactRun.

(* ================================================================== *)
(** ** The run in binary64, checked pass by pass *)

Section B64Run.

Lemma b64_run_checked :
  check_run B64.run_check 0 5000 B64.r_value B64.initial_value = true.
Proof. rewrite check_run_window. vm_compute. reflexivity. Qed.

Lemma b64_run_check (k : nat) :
  1 <= k <= 5000 ->
  B64.run_check k (steps k B64.r_value B64.initial_value) = true.
Proof.
  intros Hk.
  apply (check_run_sound B64.run_check 5000 B64.r_value 0
           B64.initial_value b64_run_checked k Hk).
Qed.




End B64Run.

(* ================================================================== *)
(** ** Shape of the profile *)

(** C7, as stated, fails in the arithmetic of the notebook: after 58 passes
    of the binary64 run the value at index 320 exceeds the value at index
    319, two values that are equal in exact arithmetic and are rounded
    differently. *)
Lemma profile_rises_after_58_passes :
  exists C : list float,
    field_after 58 = Some C /\
    nonincreasingb C = false /\
    gtb (nth 320 C zero) (nth 319 C zero) = true.
Proof.
  exists (steps 58 B64.r_value B64.initial_value).
  split; [apply b64_field_after|].
  vm_compute. split; reflexivity.
Qed.

(** C7, amended. In exact arithmetic the profile that starts as the step
    function is non-increasing after every number of passes.  In binary64 no
    value of the run exceeds its left neighbour by more than 2^-51 through
    the 5000 passes, and the profile is non-increasing after each of the
    passes 1 to 57 and 686 to 5000. *)
Theorem profile_nonincreasing_up_to_rounding :
  (forall k : nat,
      exists C : list Q,
        field_after k = Some C /\ Exact.nonincreasing C) /\
  (forall k : nat,
      1 <= k <= 5000 ->
      exists C : list float,
        field_after k = Some C /\
        rises_within B64.rounding_slack C = true /\
        (k <= 57 \/ 686 <= k -> nonincreasingb C = true)).
Proof.
  split.
  - intros k. exists (steps k Exact.r_value Exact.initial_value).
    split; [apply exact_field_after|].
    apply (exact_run_invariant k).
  - intros k Hk. exists (steps k B64.r_value B64.initial_value).
    split; [apply b64_field_after|].
    assert (H := b64_run_check k Hk).
    unfold B64.run_check, B64.profile_check in H.
    apply andb_prop in H. destruct H as [H _].
    apply andb_prop in H. destruct H as [H1 H2].
    split; [exact H1|].
    intros Hw.
    replace ((k <=? 57) || (686 <=? k)) with true in H2; [exact H2|].
    symmetry. apply orb_true_iff.
    destruct Hw as [Hw|Hw]; [left|right]; apply Nat.leb_le; exact Hw.
Qed.

Lemma profile_nonincreasing_up_to_rounding_witness :
  exists C : list float,
    field_after 1 = Some C /\
    rises_within B64.rounding_slack C = true /\
    nonincreasingb C = true.
Proof.
  destruct (proj2 profile_nonincreasing_up_to_rounding 1)
    as (C & Hf & Hr & Hm).
  - lia.
  - exists C. split; [exact Hf|]. split; [exact Hr|].
    apply Hm. left. lia.
Defined.

(* ================================================================== *)
(** ** Total mass *)




(* ================================================================== *)
(** ** Maximum principle *)

(** C10, as stated, fails in binary64: on the field [0.9, 0.3, 0.9] the
    pass with the constants of the notebook rounds the interior value to the
    double above 0.9, outside the interval of the old values. *)
Lemma rounding_overshoots_maximum :
  withinb (literal 3 1) (literal 9 1) B64.overshoot_field = true /\
  exists C' : list float,
    step D B64.dt_value dx B64.overshoot_field = Some C' /\
    gtb (nth 1 C' zero) (literal 9 1) = true /\
    withinb (literal 3 1) (literal 9 1) C' = false.
Proof.
  split; [vm_compute; reflexivity|].
  exists (step_with B64.r_value B64.overshoot_field).
  split; [apply step_some; exact b64_diffusion_number|].
  vm_compute. split; reflexivity.
Qed.

(** C10, amended. In exact arithmetic, with the time step derived from the
    stability criterion, one pass replaces each interior value by the mean of
    its two old neighbours and yields no value outside the interval from the
    smallest to the largest old value; every field of the exact run lies in
    [0, 500].  In binary64 the mean is rounded, and every value of the
    initial field and of the fields after each of the 5000 passes lies in
    [0, 500]. *)
Theorem maximum_principle :
  (forall (Dq dxq dtq : Q) (C : list Q),
      ~ (Dq == 0)%Q -> ~ (dxq == 0)%Q ->
      stable_dt Dq dxq = Some dtq ->
      exists C' : list Q,
        step Dq dtq dxq C = Some C' /\
        (forall i : nat,
            1 <= i -> i + 1 < length C ->
            (nth i C' 0 == (nth (i - 1) C 0 + nth (i + 1) C 0) / (2 # 1))%Q) /\
        Exact.within (Exact.field_min C) (Exact.field_max C) C') /\
  (forall k : nat,
      exists C : list Q,
        field_after k = Some C /\ Exact.within 0 (500 # 1) C) /\
  (forall k : nat,
      k <= 5000 ->
      exists C : list float,
        field_after k = Some C /\ withinb C_right C_left C = true).
Proof.
  split; [|split].
  - intros Dq dxq dtq C HD Hdx Hdt.
    destruct (exact_derived_number Dq dxq dtq HD Hdx Hdt) as (rq & Hr & Hh).
    exists (step_with rq C).
    split; [apply step_some; exact Hr|].
    split.
    + intros i H1 H2. destruct i as [|i]; [lia|].
      rewrite (exact_step_mid rq Hh C i) by lia.
      replace (S i - 1) with i by lia.
      replace (S i + 1) with (S (S i)) by lia.
      field.
    + apply (step_keeps_within rq Hh). apply within_min_max.
  - intros k. exists (steps k Exact.r_value Exact.initial_value).
    split; [apply exact_field_after|].
    apply (exact_run_invariant k).
  - intros k Hk. exists (steps k B64.r_value B64.initial_value).
    split; [apply b64_field_after|].
    destruct k as [|k].
    + vm_compute. reflexivity.
    + assert (H := b64_run_check (S k) ltac:(lia)).
      unfold B64.run_check, B64.range_check in H.
      apply andb_prop in H. destruct H as [_ H]. exact H.
Qed.

Lemma maximum_principle_witness :
  (exists C' : list Q,
      step (100 # 1) (5 # 4000) (1 # 2) [500 # 1; 500 # 1; 0; 0]%Q = Some C' /\
      (nth 1 C' 0 == 250 # 1)%Q) /\
  (exists C : list float,
      field_after 2 = Some C /\ withinb C_right C_left C = true).
Proof.
  split.
  - destruct (proj1 maximum_principle (100 # 1)%Q (1 # 2)%Q (5 # 4000)%Q
                [500 # 1; 500 # 1; 0; 0]%Q) as (C' & Hs & Hi & _).
    + intros E. discriminate E.
    + intros E. discriminate E.
    + vm_compute. reflexivity.
    + exists C'. split; [exact Hs|].
      rewrite (Hi 1) by (cbn [length]; lia). reflexivity.
  - apply (proj2 (proj2 maximum_principle) 2). lia.
Defined.

(* ================================================================== *)
(** ** Further facts about the loop *)

Section LoopFacts.
Context {T : Type} {AT : Arith T}.

(** An element-wise operation yields as many elements as its shorter
    operand has. *)
Lemma map2_length {A B C : Type} (op : A -> B -> C) (xs : list A) :
  forall ys : list B,
    length (map2 op xs ys) = Nat.min (length xs) (length ys).
Proof.
  induction xs as [|a xs IH]; intros [|b ys]; cbn; auto.
Qed.

Lemma step_with_agree (r : T) (C1 C2 : list T) (i : nat) :
  length C1 = length C2 ->
  nth (i - 1) C1 zero = nth (i - 1) C2 zero ->
  nth i C1 zero = nth i C2 zero ->
  nth (i + 1) C1 zero = nth (i + 1) C2 zero ->
  nth i (step_with r C1) zero = nth i (step_with r C2) zero.
Proof.
  intros Hl Ha Hb Hc. rewrite !step_with_nth, Hl.
  unfold stencil_at. now rewrite Ha, Hb, Hc.
Qed.

Lemma mask_assign_nth (p : T -> bool) (v d : T) (x : list T) :
  forall (C : list T) (i : nat),
    length C = length x -> i < length x ->
    nth i (mask_assign (map p x) v C) d =
    if p (nth i x d) then v else nth i C d.
Proof.
  induction x as [|a x IH]; intros C i Hl Hi; cbn [length] in Hi; [lia|].
  destruct C as [|c C]; cbn [length] in Hl; [lia|].
  destruct i as [|i].
  - reflexivity.
  - cbn [map mask_assign map2 nth]. apply IH; lia.
Qed.

Lemma mask_assign_length (p : T -> bool) (v : T) (x C : list T) :
  length C = length x -> length (mask_assign (map p x) v C) = length x.
Proof.
  intros H. unfold mask_assign. rewrite map2_length, length_map. lia.
Qed.

Lemma zeros_like_nth (x : list T) (i : nat) : nth i (zeros_like x) zero = zero.
Proof. exact (map_nth (fun _ : T => zero) x zero i). Qed.

End LoopFacts.

(** X1. Whatever the length of the field, the three slices of the loop body
    and the right operand built from them have the same length, the number of
    interior points [max (len C - 2) 0]: the element-wise operations and the
    in-place addition never meet mismatched shapes. *)
Theorem loop_body_shapes_agree
  (T : Type) (AT : Arith T) (r : T) (C : list T) :
  length (slice None (Some (-2)%Z) C) = length C - 2 /\
  length (slice (Some 1%Z) (Some (-1)%Z) C) = length C - 2 /\
  length (slice (Some 2%Z) None C) = length C - 2 /\
  length (stencil_rhs r C) = length C - 2.
Proof.
  destruct (slices_same_shape C) as (H1 & H2 & H3).
  repeat split; try assumption.
  unfold stencil_rhs, scale.
  rewrite length_map, !map2_length, length_map, H1, H2, H3. lia.
Qed.

(** X2. The loop raises exactly when it makes at least one pass and
    [dx ** 2] either overflows ([OverflowError]) or is zero
    ([ZeroDivisionError], for a zero spacing or one whose square underflows):
    with no pass nothing is computed, and otherwise every pass succeeds. *)
Theorem loop_raises_iff
  (T : Type) (AT : Arith T) (D dt dx : T) (C : list T) (k : nat) :
  loop k D dt dx C = None <->
  (1 <= k /\
   (py_pow2 dx = None \/
    exists sq : T, py_pow2 dx = Some sq /\ is_zero sq = true)).
Proof.
  rewrite <- (diffusion_number_none D dt dx).
  destruct (diffusion_number D dt dx) as [r|] eqn:E.
  - rewrite (loop_steps D dt dx r k C E).
    split; [discriminate|]. intros [_ H]. discriminate H.
  - split.
    + intros H. split; [|reflexivity].
      destruct k as [|k]; [discriminate H|lia].
    + intros [Hk _]. destruct k as [|k]; [lia|].
      now apply loop_none.
Qed.

(** X3. Passes compose: [m + n] passes are [m] passes followed by [n] passes
    on their result, so running the loop cell again continues the diffusion
    from the field the previous run left. *)
Theorem loop_composes
  (T : Type) (AT : Arith T) (D dt dx : T) (m n : nat) (C : list T) :
  loop (m + n) D dt dx C =
  bind (loop m D dt dx C) (fun C' => loop n D dt dx C').
Proof.
  revert C. induction m as [|m IH]; intros C.
  - reflexivity.
  - cbn [Nat.add loop]. destruct (step D dt dx C) as [C1|]; cbn [bind].
    + apply IH.
    + reflexivity.
Qed.

(** X4. Information travels one grid point per pass: if two fields of the
    same length agree at every index within distance [k] of [i], then after
    [k] passes they agree at [i]. *)
Theorem domain_of_dependence
  (T : Type) (AT : Arith T) (r : T) (k : nat) :
  forall (C1 C2 : list T) (i : nat),
    length C1 = length C2 ->
    (forall j : nat, i - k <= j <= i + k -> nth j C1 zero = nth j C2 zero) ->
    nth i (steps k r C1) zero = nth i (steps k r C2) zero.
Proof.
  induction k as [|k IH]; intros C1 C2 i Hl H.
  - cbn [steps]. apply H. lia.
  - rewrite !steps_S. apply step_with_agree.
    + now rewrite !steps_length.
    + apply IH; [exact Hl|]. intros j Hj. apply H. lia.
    + apply IH; [exact Hl|]. intros j Hj. apply H. lia.
    + apply IH; [exact Hl|]. intros j Hj. apply H. lia.
Qed.

Lemma domain_of_dependence_witness :
  nth 1 (steps 1 0.5%float [500; 500; 0; 0; 7]%float) zero =
  nth 1 (steps 1 0.5%float [500; 500; 0; 0; 9]%float) zero.
Proof.
  apply (@domain_of_dependence float binary64 0.5%float 1).
  - reflexivity.
  - intros j Hj. destruct j as [|[|[|j]]]; try reflexivity.
    cbn in Hj. lia.
Defined.

(** Two spacings on which the binary64 loop raises: the square of 2^-600
    underflows to zero although the spacing is not zero, and the square of
    2^600 overflows. *)
Lemma zero_spacing_underflow :
  @is_zero float _ 0x1p-600%float = false /\
  @py_pow2 float _ 0x1p-600%float = Some 0%float /\
  loop 1 D B64.dt_value 0x1p-600%float [500; 500; 0; 0]%float = None /\
  @py_pow2 float _ 0x1p600%float = None /\
  loop 1 D B64.dt_value 0x1p600%float [500; 500; 0; 0]%float = None.
Proof. vm_compute. repeat split. Qed.

(* ================================================================== *)
(** ** The initial condition on any grid *)

Lemma initial_nth (T : Type) (AT : Arith T) (x C : list T) (mid : T) (i : nat) :
  py_div Lx (of_int 2) = Some mid ->
  initial x = Some C ->
  i < length x ->
  nth i C zero =
  if gtb (nth i x zero) mid then C_right
  else if leb (nth i x zero) mid then C_left else zero.
Proof.
  intros Hmid HC Hi. unfold initial in HC. rewrite Hmid in HC. cbn [bind] in HC.
  injection HC as <-.
  rewrite (mask_assign_nth (fun xi => gtb xi mid) C_right zero x)
    by (try apply mask_assign_length; try exact Hi;
        unfold zeros_like; now rewrite length_map).
  destruct (gtb (nth i x zero) mid); [reflexivity|].
  rewrite (mask_assign_nth (fun xi => leb xi mid) C_left zero x)
    by (try exact Hi; unfold zeros_like; now rewrite length_map).
  destruct (leb (nth i x zero) mid); [reflexivity|].
  apply zeros_like_nth.
Qed.

(** X5. On any grid, in any arithmetic, the initial condition cell yields a
    field of the length of the grid in which the second masked assignment
    wins over the first: the value is [C_right] where [x[i] > Lx/2],
    otherwise [C_left] where [x[i] <= Lx/2], and otherwise (a position that
    compares neither way, such as a NaN) the zero of [np.zeros_like].  In
    exact arithmetic the third case never occurs: the field is 500 where
    [x[i] <= 150] and 0 where [x[i] > 150]. *)
Theorem initial_on_any_grid :
  (forall (T : Type) (AT : Arith T) (x : list T) (mid : T),
      py_div Lx (of_int 2) = Some mid ->
      exists C : list T,
        initial x = Some C /\
        length C = length x /\
        forall i : nat,
          i < length x ->
          nth i C zero =
          if gtb (nth i x zero) mid then C_right
          else if leb (nth i x zero) mid then C_left else zero) /\
  (forall x : list Q,
      exists C : list Q,
        initial x = Some C /\
        length C = length x /\
        forall i : nat,
          i < length x ->
          ((nth i x 0 <= 150 # 1)%Q -> nth i C 0%Q = (500 # 1)%Q) /\
          ((150 # 1 < nth i x 0)%Q -> nth i C 0%Q = 0%Q)).
Proof.
  assert (G : forall (T : Type) (AT : Arith T) (x : list T) (mid : T),
             py_div Lx (of_int 2) = Some mid ->
             exists C : list T, initial x = Some C /\ length C = length x).
  { intros T AT x mid Hmid. unfold initial. rewrite Hmid. cbn [bind].
    eexists. split; [reflexivity|].
    rewrite !mask_assign_length; try reflexivity;
      try (unfold zeros_like; now rewrite length_map).
    rewrite mask_assign_length; [reflexivity|].
    unfold zeros_like. now rewrite length_map. }
  split.
  - intros T AT x mid Hmid.
    destruct (G T AT x mid Hmid) as (C & HC & Hl).
    exists C. split; [exact HC|]. split; [exact Hl|].
    intros i Hi. now apply (initial_nth T AT x C mid i).
  - intros x.
    assert (Hmid : @py_div Q _ Lx (of_int 2) = Some (300 # 2)%Q)
      by (vm_compute; reflexivity).
    destruct (G Q exact x _ Hmid) as (C & HC & Hl).
    exists C. split; [exact HC|]. split; [exact Hl|].
    intros i Hi.
    assert (E := initial_nth Q exact x C _ i Hmid HC Hi).
    change (@zero Q exact) with 0%Q in E.
    cbn [gtb leb exact] in E.
    split; intros H.
    + assert (Hb : Qle_bool (nth i x 0%Q) (300 # 2) = true).
      { apply Qle_bool_iff. apply Qle_trans with (150 # 1)%Q; [exact H|].
        discriminate. }
      rewrite Hb in E. cbn [negb] in E. exact E.
    + assert (Hb : Qle_bool (nth i x 0%Q) (300 # 2) = false).
      { destruct (Qle_bool (nth i x 0%Q) (300 # 2)) eqn:Eb; [|reflexivity].
        apply Qle_bool_iff in Eb. exfalso.
        apply (Qlt_irrefl (150 # 1)).
        apply Qlt_le_trans with (nth i x 0%Q); [exact H|].
        apply Qle_trans with (300 # 2)%Q; [exact Eb|discriminate]. }
      rewrite Hb in E. cbn [negb] in E. exact E.
Qed.

Lemma initial_on_any_grid_witness :
  exists C : list Q,
    initial [7 # 1; 150 # 1; 151 # 1]%Q = Some C /\
    nth 1 C 0%Q = (500 # 1)%Q /\ nth 2 C 0%Q = 0%Q.
Proof.
  destruct (proj2 initial_on_any_grid [7 # 1; 150 # 1; 151 # 1]%Q)
    as (C & HC & _ & H).
  exists C. split; [exact HC|]. split.
  - apply (proj1 (H 1 ltac:(cbn [length]; lia))). cbn [nth]. discriminate.
  - apply (proj2 (H 2 ltac:(cbn [length]; lia))). cbn [nth]. reflexivity.
Defined.

(* ================================================================== *)
(** ** The inspection cells *)

Lemma slice_0_5 (T : Type) (l : list T) :
  slice (Some 0%Z) (Some 5%Z) l = firstn 5 l.
Proof.
  unfold slice, slice_bounds, clamp_index.
  change (0 <? 0)%Z with false. change (5 <? 0)%Z with false. cbv iota.
  replace (Z.to_nat (Z.max 0 (Z.min (Z.of_nat (length l)) 0))) with 0 by lia.
  cbn [skipn]. rewrite Nat.sub_0_r.
  destruct (Nat.le_gt_cases 5 (length l)) as [H|H].
  - f_equal. lia.
  - replace (Z.to_nat (Z.max 0 (Z.min (Z.of_nat (length l)) 5)))
      with (length l) by lia.
    rewrite firstn_all. symmetry. apply firstn_all2. lia.
Qed.

(** X7. The slice cell [x[0:5]] never raises: on any array it is the first
    five elements, or all of them when there are fewer.  The index cell
    [x[0]] returns the first element of a non-empty array and raises on the
    empty one.  In the notebook the three inspection cells show 600, 0.0 and
    [0, 0.5, 1, 1.5, 2]. *)
Theorem inspection_cells :
  (forall (T : Type) (l : list T),
      slice (Some 0%Z) (Some 5%Z) l = firstn 5 l /\
      (py_index 0 l = None <-> l = []) /\
      py_index 0 l = hd_error l) /\
  (@shown_nx float _ = Some 600 /\
   @shown_first float _ = Some 0%float /\
   @shown_head float _ = Some [0; 0.5; 1; 1.5; 2]%float).
Proof.
  split.
  - intros T l. split; [apply slice_0_5|].
    destruct l as [|a l].
    + assert (E : @py_index T 0 [] = None) by reflexivity.
      rewrite E. split; [split; reflexivity|reflexivity].
    + assert (E : py_index 0 (a :: l) = Some a).
      { unfold py_index. change (0 <? 0)%Z with false. cbv iota.
        replace (Z.of_nat (length (a :: l)) <=? 0)%Z with false
          by (symmetry; apply Z.leb_gt; cbn [length]; lia).
        reflexivity. }
      rewrite E. split; [split; discriminate|reflexivity].
  - vm_compute. repeat split.
Qed.

(* ================================================================== *)
(** ** The grid for any extent and spacing *)

Section ExactGrid.
Local Open Scope Q_scope.

Lemma arange_fill_length (first next : Q) (n : nat) :
  length (arange_fill first next n) = n.
Proof. unfold arange_fill. now rewrite length_map, length_seq. Qed.

(** Looking up entry [i] of a table built over the indices below [n]. *)
Lemma table_lookup {A : Type} (entry : nat -> A) (d : A) (n i : nat) :
  (i < n)%nat -> nth i (map entry (seq 0 n)) d = entry i.
Proof.
  intros Hi.
  rewrite (nth_indep _ d (entry 0%nat)) by (now rewrite length_map, length_seq).
  rewrite map_nth. now rewrite seq_nth.
Qed.

Lemma arange_fill_nth (first step : Q) (n i : nat) :
  (i < n)%nat ->
  nth i (arange_fill first (first + step) n) 0 ==
  first + inject_Z (Z.of_nat i) * step.
Proof.
  intros Hi. unfold arange_fill. rewrite table_lookup by exact Hi.
  destruct i as [|[|i]].
  - change (inject_Z (Z.of_nat 0)) with 0. ring.
  - change (inject_Z (Z.of_nat 1)) with 1. ring.
  - cbn [add sub mul of_int exact]. ring.
Qed.

Lemma below_ceiling (q : Q) (i : nat) :
  (Z.of_nat i < Qceiling q)%Z -> inject_Z (Z.of_nat i) < q.
Proof.
  intros H. apply Qle_lt_trans with (inject_Z (Qceiling q - 1)).
  - rewrite <- Zle_Qle. lia.
  - apply Qceiling_lt.
Qed.

End ExactGrid.

(** X6. In exact arithmetic, for any start, stop and positive step,
    [np.arange] succeeds with [ceil((stop - start) / step)] points (none when
    [stop <= start]); the point of index [i] is [start + i * step], and every
    point lies in the half-open interval from [start] to [stop]: the grid
    never reaches its stop value.  With a zero step the cell raises. *)
Theorem grid_for_any_spacing :
  (forall start stop step : Q,
      (0 < step)%Q ->
      exists x : list Q,
        arange start stop step = Some x /\
        length x = Z.to_nat (Qceiling ((stop - start) / step)) /\
        forall i : nat,
          i < length x ->
          (nth i x 0 == start + inject_Z (Z.of_nat i) * step)%Q /\
          (start <= nth i x 0)%Q /\ (nth i x 0 < stop)%Q) /\
  (forall start stop step : Q,
      (step == 0)%Q -> arange start stop step = None).
Proof.
  split.
  - intros start stop step Hs.
    assert (Hz : @is_zero Q _ step = false).
    { apply exact_is_zero_false. intros E. rewrite E in Hs.
      exact (Qlt_irrefl _ Hs). }
    unfold arange, py_div. rewrite Hz. cbn [bind ceil exact sub add div].
    set (q := ((stop - start) / step)%Q).
    destruct (Qceiling q <=? 0)%Z eqn:E.
    + exists []. split; [reflexivity|].
      apply Z.leb_le in E. split; [cbn [length]; lia|].
      intros i Hi. cbn [length] in Hi. lia.
    + apply Z.leb_gt in E.
      exists (arange_fill start (start + step)%Q (Z.to_nat (Qceiling q))).
      split; [reflexivity|]. rewrite arange_fill_length.
      split; [reflexivity|].
      intros i Hi.
      assert (Hn := arange_fill_nth start step _ i Hi).
      split; [exact Hn|].
      assert (Hq : (inject_Z (Z.of_nat i) < q)%Q)
        by (apply below_ceiling; lia).
      assert (H0 : (0 <= inject_Z (Z.of_nat i))%Q).
      { change 0%Q with (inject_Z 0). rewrite <- Zle_Qle. lia. }
      assert (Hm : (inject_Z (Z.of_nat i) * step < q * step)%Q)
        by (apply Qmult_lt_compat_r; assumption).
      assert (Hqs : (q * step == stop - start)%Q).
      { unfold q. field. intros Ez. rewrite Ez in Hs.
        exact (Qlt_irrefl _ Hs). }
      assert (Hp : (0 <= inject_Z (Z.of_nat i) * step)%Q).
      { apply Qmult_le_0_compat; [exact H0|]. apply Qlt_le_weak. exact Hs. }
      rewrite Hn. rewrite Hqs in Hm. split; lra.
  - intros start stop step Hs. unfold arange, py_div.
    replace (is_zero step) with true; [reflexivity|].
    symmetry. cbn [is_zero exact]. apply Qeq_bool_iff. exact Hs.
Qed.

Lemma grid_for_any_spacing_witness :
  exists x : list Q,
    arange 0%Q (10 # 1)%Q (3 # 1)%Q = Some x /\ length x = 4.
Proof.
  destruct (proj1 grid_for_any_spacing 0%Q (10 # 1)%Q (3 # 1)%Q)
    as (x & Hx & Hl & _).
  - reflexivity.
  - exists x. split; [exact Hx|]. rewrite Hl. reflexivity.
Defined.

(* ================================================================== *)
(** ** One pass in exact arithmetic, for any diffusion number *)

Section ExactAnyNumber.
Local Open Scope Q_scope.

Variable r : Q.

Lemma exact_update_first (C : list Q) :
  nth 0 (step_with r C) 0 = nth 0 C 0.
Proof.
  change 0 with (@zero Q _). now rewrite step_with_nth, interior_first.
Qed.

Lemma exact_update_last (C : list Q) (i : nat) :
  (length C <= S i)%nat -> nth i (step_with r C) 0 = nth i C 0.
Proof.
  intros H. change 0 with (@zero Q _). rewrite step_with_nth.
  unfold interior.
  replace (i + 1 <? length C)%nat with false
    by (symmetry; apply Nat.ltb_ge; lia).
  now rewrite andb_false_r.
Qed.

Lemma exact_update_mid (C : list Q) (i : nat) :
  (S (S i) < length C)%nat ->
  nth (S i) (step_with r C) 0 =
  nth (S i) C 0
  + r * (nth i C 0 - (2 # 1) * nth (S i) C 0 + nth (S (S i)) C 0).
Proof.
  intros H. change 0 with (@zero Q _). rewrite step_with_nth.
  unfold interior.
  replace (S i + 1 <? length C)%nat with true
    by (symmetry; apply Nat.ltb_lt; lia).
  change (1 <=? S i)%nat with true. cbn [andb].
  unfold stencil_at.
  replace (S i - 1)%nat with i by lia.
  replace (S i + 1)%nat with (S (S i)) by lia.
  reflexivity.
Qed.

(** The new interior value as a weighted mean of three old values. *)
Lemma weighted_mean_bounds (lo hi a b c : Q) :
  0 <= r -> r <= 1 # 2 ->
  lo <= a <= hi -> lo <= b <= hi -> lo <= c <= hi ->
  lo <= b + r * (a - (2 # 1) * b + c) <= hi.
Proof.
  intros Hr0 Hr1 [A1 A2] [B1 B2] [C1 C2].
  assert (P1 : 0 <= r * (a - lo)) by (apply Qmult_le_0_compat; lra).
  assert (P2 : 0 <= r * (c - lo)) by (apply Qmult_le_0_compat; lra).
  assert (P3 : 0 <= (1 - (2 # 1) * r) * (b - lo))
    by (apply Qmult_le_0_compat; lra).
  assert (P4 : 0 <= r * (hi - a)) by (apply Qmult_le_0_compat; lra).
  assert (P5 : 0 <= r * (hi - c)) by (apply Qmult_le_0_compat; lra).
  assert (P6 : 0 <= (1 - (2 # 1) * r) * (hi - b))
    by (apply Qmult_le_0_compat; lra).
  split.
  - setoid_replace (b + r * (a - (2 # 1) * b + c))
      with (lo + (r * (a - lo) + r * (c - lo)
                  + (1 - (2 # 1) * r) * (b - lo))) by ring.
    lra.
  - setoid_replace (b + r * (a - (2 # 1) * b + c))
      with (hi - (r * (hi - a) + r * (hi - c)
                  + (1 - (2 # 1) * r) * (hi - b))) by ring.
    lra.
Qed.

Lemma stable_step_within (lo hi : Q) (C : list Q) :
  0 <= r -> r <= 1 # 2 ->
  Exact.within lo hi C -> Exact.within lo hi (step_with r C).
Proof.
  intros Hr0 Hr1 H i Hi. rewrite step_with_length in Hi.
  destruct i as [|i].
  - rewrite exact_update_first. apply H. exact Hi.
  - destruct (Nat.lt_ge_cases (S (S i)) (length C)) as [Hn|Hn].
    + rewrite (exact_update_mid C i Hn).
      apply weighted_mean_bounds; try assumption; apply H; lia.
    + rewrite exact_update_last by lia. apply H. exact Hi.
Qed.

End ExactAnyNumber.

Section ExactOrder.
Local Open Scope Q_scope.

Variable r : Q.
Hypothesis r_nonneg : 0 <= r.
Hypothesis r_stable : r <= 1 # 2.

Lemma order_kept_inside (a b c d : Q) :
  b <= a -> c <= b -> d <= c ->
  c + r * (b - (2 # 1) * c + d) <= b + r * (a - (2 # 1) * b + c).
Proof.
  intros H1 H2 H3.
  assert (P1 : 0 <= r * (a - b)) by (apply Qmult_le_0_compat; lra).
  assert (P2 : 0 <= r * (c - d)) by (apply Qmult_le_0_compat; lra).
  assert (P3 : 0 <= (1 - (2 # 1) * r) * (b - c))
    by (apply Qmult_le_0_compat; lra).
  apply Qle_minus_iff.
  setoid_replace (b + r * (a - (2 # 1) * b + c)
                  + - (c + r * (b - (2 # 1) * c + d)))
    with (r * (a - b) + r * (c - d) + (1 - (2 # 1) * r) * (b - c)) by ring.
  lra.
Qed.

Lemma order_kept_left (a b c : Q) :
  b <= a -> c <= b -> b + r * (a - (2 # 1) * b + c) <= a.
Proof.
  intros H1 H2.
  assert (P1 : 0 <= (1 - r) * (a - b)) by (apply Qmult_le_0_compat; lra).
  assert (P2 : 0 <= r * (b - c)) by (apply Qmult_le_0_compat; lra).
  apply Qle_minus_iff.
  setoid_replace (a + - (b + r * (a - (2 # 1) * b + c)))
    with ((1 - r) * (a - b) + r * (b - c)) by ring.
  lra.
Qed.

Lemma order_kept_right (a b c : Q) :
  b <= a -> c <= b -> c <= b + r * (a - (2 # 1) * b + c).
Proof.
  intros H1 H2.
  assert (P1 : 0 <= (1 - r) * (b - c)) by (apply Qmult_le_0_compat; lra).
  assert (P2 : 0 <= r * (a - b)) by (apply Qmult_le_0_compat; lra).
  apply Qle_minus_iff.
  setoid_replace (b + r * (a - (2 # 1) * b + c) + - c)
    with ((1 - r) * (b - c) + r * (a - b)) by ring.
  lra.
Qed.

Lemma stable_step_nonincreasing (C : list Q) :
  Exact.nonincreasing C -> Exact.nonincreasing (step_with r C).
Proof.
  intros H i Hi. rewrite step_with_length in Hi.
  destruct i as [|i].
  - rewrite exact_update_first.
    destruct (Nat.lt_ge_cases 2 (length C)) as [Hn|Hn].
    + rewrite (exact_update_mid r C 0 Hn).
      apply order_kept_left; [apply (H 0%nat Hi)|apply (H 1%nat Hn)].
    + rewrite exact_update_last by lia. apply H. exact Hi.
  - assert (Hm : (S (S i) < length C)%nat) by lia.
    rewrite (exact_update_mid r C i Hm).
    destruct (Nat.lt_ge_cases (S (S (S i))) (length C)) as [Hn|Hn].
    + rewrite (exact_update_mid r C (S i) Hn).
      apply order_kept_inside;
        [apply (H i); lia|apply (H (S i)); lia|apply (H (S (S i))); lia].
    + rewrite exact_update_last by lia.
      apply order_kept_right; [apply (H i); lia|apply (H (S i)); lia].
Qed.

End ExactOrder.

(** X8. In exact arithmetic the stability criterion is exactly what keeps a
    pass inside the range of the old field: for every diffusion number
    between 0 and 1/2, a field with all values in [lo, hi] is stepped to a
    field with all values in [lo, hi]; for every diffusion number above 1/2
    the field [0, 1, 0] is stepped to a negative interior value. *)
Theorem stability_bound :
  (forall (r lo hi : Q) (C : list Q),
      (0 <= r)%Q -> (r <= 1 # 2)%Q ->
      Exact.within lo hi C -> Exact.within lo hi (step_with r C)) /\
  (forall r : Q,
      (1 # 2 < r)%Q ->
      Exact.within 0 1 [0; 1; 0]%Q /\
      (nth 1 (step_with r [0; 1; 0]%Q) 0 < 0)%Q).
Proof.
  split.
  - intros r lo hi C H0 H1 H. now apply stable_step_within.
  - intros r Hr. split.
    + intros i Hi. cbn [length] in Hi.
      destruct i as [|[|[|i]]]; cbn [nth]; try lia; split; discriminate.
    + rewrite (exact_update_mid r [0; 1; 0]%Q 0) by (cbn [length]; lia).
      cbn [nth]. lra.
Qed.

Lemma stability_bound_witness :
  Exact.within 0 (500 # 1) (step_with (1 # 4) [500 # 1; 0; 0]%Q) /\
  (nth 1 (step_with (1 # 1) [0; 1; 0]%Q) 0 < 0)%Q.
Proof.
  split.
  - apply (proj1 stability_bound (1 # 4)%Q 0%Q (500 # 1)%Q
             [500 # 1; 0; 0]%Q).
    + discriminate.
    + discriminate.
    + intros i Hi. cbn [length] in Hi.
      destruct i as [|[|[|i]]]; cbn [nth]; try lia; split; discriminate.
  - apply (proj2 stability_bound (1 # 1)%Q). reflexivity.
Defined.

(** X9. In exact arithmetic the fields a pass leaves unchanged are the ones
    with a vanishing second difference at every interior point, the linear
    profiles: such a field is a fixed point for every diffusion number, and
    for a non-zero diffusion number a fixed point has vanishing second
    differences. *)
Theorem steady_states :
  (forall (r : Q) (C : list Q),
      (forall i : nat,
          S (S i) < length C ->
          (nth i C 0 - (2 # 1) * nth (S i) C 0 + nth (S (S i)) C 0 == 0)%Q) ->
      forall i : nat, (nth i (step_with r C) 0 == nth i C 0)%Q) /\
  (forall (r : Q) (C : list Q),
      ~ (r == 0)%Q ->
      (forall i : nat, (nth i (step_with r C) 0 == nth i C 0)%Q) ->
      forall i : nat,
        S (S i) < length C ->
        (nth i C 0 - (2 # 1) * nth (S i) C 0 + nth (S (S i)) C 0 == 0)%Q).
Proof.
  split.
  - intros r C H i. destruct i as [|i].
    + now rewrite exact_update_first.
    + destruct (Nat.lt_ge_cases (S (S i)) (length C)) as [Hn|Hn].
      * rewrite (exact_update_mid r C i Hn). rewrite (H i Hn). ring.
      * now rewrite exact_update_last by lia.
  - intros r C Hr H i Hi.
    assert (E := H (S i)). rewrite (exact_update_mid r C i Hi) in E.
    assert (P : (r * (nth i C 0 - (2 # 1) * nth (S i) C 0
                      + nth (S (S i)) C 0) == 0)%Q).
    { apply (Qplus_inj_l _ _ (nth (S i) C 0%Q)). rewrite E. ring. }
    apply Qmult_integral in P. destruct P as [P|P]; [contradiction|exact P].
Qed.

Lemma steady_states_witness :
  (nth 1 (step_with (1 # 2) [3 # 1; 2 # 1; 1; 0]%Q) 0 == 2 # 1)%Q.
Proof.
  apply (proj1 steady_states (1 # 2)%Q [3 # 1; 2 # 1; 1; 0]%Q).
  intros i Hi. cbn [length] in Hi.
  destruct i as [|[|i]]; cbn [nth]; try lia; reflexivity.
Defined.

(** X10. In exact arithmetic a pass with a diffusion number between 0 and
    1/2 keeps every non-increasing field non-increasing, whatever its length
    and values. *)
Theorem stable_step_keeps_order (r : Q) (C : list Q) :
  (0 <= r)%Q -> (r <= 1 # 2)%Q ->
  Exact.nonincreasing C -> Exact.nonincreasing (step_with r C).
Proof.
  intros H0 H1 H. now apply stable_step_nonincreasing.
Qed.

Lemma stable_step_keeps_order_witness :
  Exact.nonincreasing (step_with (1 # 4) [500 # 1; 500 # 1; 0; 0]%Q).
Proof.
  apply stable_step_keeps_order.
  - discriminate.
  - discriminate.
  - intros i Hi. cbn [length] in Hi.
    destruct i as [|[|[|i]]]; cbn [nth]; try lia; discriminate.
Defined.

Lemma nth_map_inside {A B : Type} (f : A -> B) (l : list A) (i : nat)
  (d : A) (e : B) :
  i < length l -> nth i (map f l) e = f (nth i l d).
Proof.
  intros H. rewrite (nth_indep _ e (f d)) by (now rewrite length_map).
  apply map_nth.
Qed.

(** X11. In exact arithmetic a pass commutes with rescaling and shifting the
    concentration: stepping the field [a * C + c] gives [a] times the
    stepped field plus [c] at every grid point, so the choice of the two
    boundary values only rescales the solution. *)
Theorem affine_invariance (r a c : Q) (C : list Q) (i : nat) :
  i < length C ->
  (nth i (step_with r (map (fun v => a * v + c) C)) 0 ==
   a * nth i (step_with r C) 0 + c)%Q.
Proof.
  intros Hi. destruct i as [|i].
  - rewrite !exact_update_first.
    rewrite (nth_map_inside (fun v => a * v + c)%Q C 0 0%Q 0%Q Hi).
    reflexivity.
  - destruct (Nat.lt_ge_cases (S (S i)) (length C)) as [Hn|Hn].
    + rewrite (exact_update_mid r C i Hn).
      rewrite (exact_update_mid r (map (fun v => a * v + c)%Q C) i)
        by (now rewrite length_map).
      rewrite !(nth_map_inside (fun v => a * v + c)%Q C _ 0%Q 0%Q) by lia.
      ring.
    + rewrite (exact_update_last r C (S i)) by lia.
      rewrite (exact_update_last r (map (fun v => a * v + c)%Q C) (S i))
        by (rewrite length_map; lia).
      rewrite (nth_map_inside (fun v => a * v + c)%Q C _ 0%Q 0%Q Hi).
      reflexivity.
Qed.

Lemma affine_invariance_witness :
  (nth 1 (step_with (1 # 2)
            (map (fun v => (2 # 1) * v + 1) [500 # 1; 500 # 1; 0; 0])) 0 ==
   (2 # 1) * nth 1 (step_with (1 # 2) [500 # 1; 500 # 1; 0; 0]) 0 + 1)%Q.
Proof.
  apply (affine_invariance (1 # 2) (2 # 1) 1 [500 # 1; 500 # 1; 0; 0]%Q 1).
  cbn [length]. lia.
Defined.

Lemma nth_sum_fields (C1 C2 : list Q) (i : nat) :
  length C1 = length C2 ->
  nth i (map2 Qplus C1 C2) 0%Q = (nth i C1 0 + nth i C2 0)%Q.
Proof.
  revert C2 i. induction C1 as [|a C1 IH]; intros [|b C2] i H;
    cbn [length] in H; try discriminate H.
  - destruct i; reflexivity.
  - destruct i as [|i]; [reflexivity|].
    cbn [map2 nth]. apply IH. lia.
Qed.

(** X12. In exact arithmetic a pass is additive: stepping the element-wise
    sum of two fields of the same length gives, at every grid point, the sum
    of the two stepped fields. *)
Theorem superposition (r : Q) (C1 C2 : list Q) (i : nat) :
  length C1 = length C2 ->
  (nth i (step_with r (map2 Qplus C1 C2)) 0 ==
   nth i (step_with r C1) 0 + nth i (step_with r C2) 0)%Q.
Proof.
  intros Hl.
  assert (Hs : length (map2 Qplus C1 C2) = length C1)
    by (rewrite map2_length; lia).
  destruct i as [|i].
  - rewrite !exact_update_first. now rewrite nth_sum_fields.
  - destruct (Nat.lt_ge_cases (S (S i)) (length C1)) as [Hn|Hn].
    + rewrite (exact_update_mid r C1 i Hn).
      rewrite (exact_update_mid r C2 i) by lia.
      rewrite (exact_update_mid r (map2 Qplus C1 C2) i) by lia.
      rewrite !nth_sum_fields by exact Hl. ring.
    + rewrite (exact_update_last r C1 (S i)) by lia.
      rewrite (exact_update_last r C2 (S i)) by lia.
      rewrite (exact_update_last r (map2 Qplus C1 C2) (S i)) by lia.
      now rewrite nth_sum_fields.
Qed.

Lemma superposition_witness :
  (nth 1 (step_with (1 # 2)
            (map2 Qplus [500 # 1; 500 # 1; 0; 0] [1; 2 # 1; 3 # 1; 4 # 1])) 0 ==
   nth 1 (step_with (1 # 2) [500 # 1; 500 # 1; 0; 0]) 0
   + nth 1 (step_with (1 # 2) [1; 2 # 1; 3 # 1; 4 # 1]) 0)%Q.
Proof.
  apply (superposition (1 # 2) [500 # 1; 500 # 1; 0; 0]%Q
           [1; 2 # 1; 3 # 1; 4 # 1]%Q 1).
  reflexivity.
Defined.

(* ================================================================== *)
(** ** The run and the C library *)

Section AnyLibm.

Variable libm_pow2 : float -> float.
Hypothesis libm_exact_at_spacing : libm_pow2 0.5%float = 0.25%float.

Lemma libm_square_of_spacing :
  @py_pow2 float (binary64_libm libm_pow2)
    (@dx float (binary64_libm libm_pow2)) =
  Some 0.25%float.
Proof.
  vm_compute. rewrite libm_exact_at_spacing. reflexivity.
Qed.

Lemma libm_grid : @grid float (binary64_libm libm_pow2) = Some B64.grid_value.
Proof. vm_compute. reflexivity. Qed.

Lemma libm_initial :
  @initial float (binary64_libm libm_pow2) B64.grid_value =
  Some B64.initial_value.
Proof. vm_compute. reflexivity. Qed.

Lemma libm_dt : @dt float (binary64_libm libm_pow2) = Some B64.dt_value.
Proof.
  unfold dt, stable_dt. rewrite libm_square_of_spacing. cbn [bind].
  vm_compute. reflexivity.
Qed.

Lemma libm_diffusion_number :
  @diffusion_number float (binary64_libm libm_pow2)
    (@D float (binary64_libm libm_pow2)) B64.dt_value
    (@dx float (binary64_libm libm_pow2)) =
  Some B64.r_value.
Proof.
  unfold diffusion_number. rewrite libm_square_of_spacing. cbn [bind].
  vm_compute. reflexivity.
Qed.

Lemma libm_step_with (r : float) (C : list float) :
  @step_with float (binary64_libm libm_pow2) r C =
  @step_with float binary64 r C.
Proof. reflexivity. Qed.

Lemma libm_steps (k : nat) (r : float) :
  forall C : list float,
    @steps float (binary64_libm libm_pow2) k r C =
    @steps float binary64 k r C.
Proof.
  induction k as [|k IH]; intros C; [reflexivity|].
  cbn [steps]. rewrite libm_step_with. apply IH.
Qed.

End AnyLibm.

(** X13. The binary64 run does not depend on how the C library rounds its
    squares: on every platform whose [pow] returns 0.25 for the square of the
    spacing 0.5, the notebook computes the time step, the diffusion number
    and, after any number of passes, the very field it computes with a
    correctly rounding library. *)
Theorem run_independent_of_libm (libm_pow2 : float -> float) :
  libm_pow2 0.5%float = 0.25%float ->
  @dt float (binary64_libm libm_pow2) = @dt float binary64 /\
  forall k : nat,
    @field_after float (binary64_libm libm_pow2) k =
    @field_after float binary64 k.
Proof.
  intros H. split.
  - rewrite (libm_dt libm_pow2 H). symmetry. exact b64_dt.
  - intros k. rewrite b64_field_after.
    unfold field_after. rewrite libm_grid. cbn [bind].
    rewrite libm_initial. cbn [bind]. rewrite (libm_dt libm_pow2 H).
    cbn [bind].
    rewrite (@loop_steps float (binary64_libm libm_pow2) D B64.dt_value dx
               B64.r_value k B64.initial_value
               (libm_diffusion_number libm_pow2 H)).
    now rewrite libm_steps.
Qed.

Lemma run_independent_of_libm_witness :
  @field_after float
    (binary64_libm (fun v => if PrimFloat.eqb v 0.5 then 0.25
                             else PrimFloat.next_up (PrimFloat.mul v v))%float)
    3 =
  @field_after float binary64 3.
Proof.
  apply (run_independent_of_libm
           (fun v => if PrimFloat.eqb v 0.5 then 0.25
                     else PrimFloat.next_up (PrimFloat.mul v v))%float).
  reflexivity.
Defined.
